(** * registrar.apps.core.utils

    A shallow embedding of [registrar/apps/core/utils.py]: the permission
    resolver ([get_user_api_permissions],
    [get_effective_user_program_api_permissions]) and the CSV utilities
    ([serialize_to_csv], [StrippedLowercaseFieldNamesDictReader],
    [load_records_from_csv]), together with the fragments of the Python
    runtime they run on ([str.strip], [str.lower], [str.splitlines],
    [str.join], dictionaries, sets, exceptions) and of CPython's [csv]
    module ([csv.reader], [csv.writer], [csv.DictReader], [csv.DictWriter]
    under the default [excel] dialect).

    Conventions.
    - A Python [str] is a [string] whose characters are the code points
      0..255; [str.lower], [str.strip] and [str.splitlines] are exact on
      that range.
    - A Python [set] of strings is a [gset string]; a [dict] is a [gmap].
      Iteration over a set or over [dict.items()] follows [elements] and
      [map_to_list].
    - A raised exception is the [Raise] branch of [result].
    - The [csv] module is the one of CPython 3.11 and later: a NUL
      character in a line is an ordinary character.
    - [str] of an [int] is the one of CPython 3.11 and later under the
      default limit: an [int] of more than 4300 decimal digits is not
      converted and [ValueError] is raised. *)

From Stdlib Require Import Ascii String.
From stdpp Require Import gmap strings list fin_maps pretty.

Open Scope string_scope.

(** ** Python runtime *)

Module Py.

(** The exceptions that can leave the functions of this module. *)
Inductive exn : Type :=
| ValidationError (detail : string)   (* rest_framework.exceptions *)
| TypeError                           (* iterating over None *)
| AttributeError                      (* None.strip() *)
| KeyError                            (* row[field], field absent *)
| csv_Error (msg : string)            (* _csv.Error *)
| ValueError.                         (* str() of an int beyond the digit limit *)

Inductive result (A : Type) : Type :=
| Ok (a : A)
| Raise (e : exn).
Arguments Ok {A} a.
Arguments Raise {A} e.

#[global] Instance result_ret : MRet result := fun _ a => Ok a.
#[global] Instance result_bind : MBind result := fun _ _ f m =>
  match m with
  | Ok a => f a
  | Raise e => Raise e
  end.

(** A loop that threads a value through the items of a list and stops at
    the first exception. *)
Fixpoint foldlM {A B : Type} (f : B -> A -> result B) (b : B) (l : list A)
  : result B :=
  match l with
  | [] => Ok b
  | a :: l => b' ← f b a; foldlM f b' l
  end.

(** An iterator, as the sequence of items it yields before it either
    stops ([SNil], StopIteration) or raises ([SRaise]). *)
Inductive stream (A : Type) : Type :=
| SNil
| SCons (a : A) (s : stream A)
| SRaise (e : exn).
Arguments SNil {A}.
Arguments SCons {A} a s.
Arguments SRaise {A} e.

Definition code (c : ascii) : N := N_of_ascii c.

Definition CR : ascii := "013"%char.
Definition LF : ascii := "010"%char.

(** [Py_UNICODE_ISSPACE] on 0..255: TAB, LF, VT, FF, CR, FS, GS, RS, US,
    SPACE, NEL and NBSP. *)
Definition is_space (c : ascii) : bool :=
  let n := code c in
  ((9 <=? n) && (n <=? 13) || (28 <=? n) && (n <=? 32)
   || (n =? 133) || (n =? 160))%N.

(** [Py_UNICODE_ISLINEBREAK] on 0..255: LF, VT, FF, CR, FS, GS, RS, NEL. *)
Definition is_linebreak (c : ascii) : bool :=
  let n := code c in
  ((10 <=? n) && (n <=? 13) || (28 <=? n) && (n <=? 30) || (n =? 133))%N.

(** [str.lower] on one character: A-Z and the Latin-1 capitals. *)
Definition lower_char (c : ascii) : ascii :=
  let n := code c in
  if ((65 <=? n) && (n <=? 90) || (192 <=? n) && (n <=? 214)
      || (216 <=? n) && (n <=? 222))%N
  then ascii_of_N (n + 32) else c.

Fixpoint lower (s : string) : string :=
  match s with
  | "" => ""
  | String c r => String (lower_char c) (lower r)
  end.

Fixpoint lstrip (s : string) : string :=
  match s with
  | "" => ""
  | String c r => if is_space c then lstrip r else s
  end.

Fixpoint rstrip (s : string) : string :=
  match s with
  | "" => ""
  | String c r =>
      match rstrip r with
      | "" => if is_space c then "" else String c ""
      | r' => String c r'
      end
  end.

(** [str.strip()] *)
Definition strip (s : string) : string := rstrip (lstrip s).

(** [str.splitlines()], without the line ends; CR LF is one line end and
    a final line end opens no further line. *)
Fixpoint splitlines (s : string) : list string :=
  match s with
  | "" => []
  | String c r =>
      if is_linebreak c then
        "" :: (if Ascii.eqb c CR then
                 match r with
                 | String c' r' => if Ascii.eqb c' LF then splitlines r'
                                   else splitlines r
                 | "" => splitlines r
                 end
               else splitlines r)
      else
        match splitlines r with
        | [] => [String c ""]
        | l :: ls => String c l :: ls
        end
  end.

(** [sep.join(l)] *)
Definition join (sep : string) (l : list string) : string :=
  String.concat sep l.

(** The one-character string holding LF, and the CR LF pair. *)
Definition nl : string := String LF EmptyString.
Definition crlf : string := String CR (String LF EmptyString).

(** The items an iterator yields, whatever ends it. *)
Fixpoint stream_items {A : Type} (s : stream A) : list A :=
  match s with
  | SNil => []
  | SCons a s => a :: stream_items s
  | SRaise _ => []
  end.

(** [bool(s)] for a [str]. *)
Definition str_truthy (s : string) : bool :=
  match s with "" => false | _ => true end.

End Py.
Import Py.

(** Values an item handed to [serialize_to_csv] may hold. *)
Inductive pyval : Type :=
| PStr (s : string)
| PBool (b : bool)
| PInt (z : Z)
| PNone.

(** [sys.get_int_max_str_digits()] *)
Definition int_max_str_digits : Z := 4300.

(** [str(v)]; an [int] of more than [int_max_str_digits] decimal digits,
    which is one of absolute value [10 ^ int_max_str_digits] or more, is
    not converted: [ValueError]. *)
Definition py_str (v : pyval) : result string :=
  match v with
  | PStr s => Ok s
  | PBool true => Ok "True"
  | PBool false => Ok "False"
  | PInt z =>
      if (10 ^ int_max_str_digits <=? Z.abs z)%Z then Raise ValueError
      else Ok (pretty z)
  | PNone => Ok "None"
  end.

(** Values of a row yielded by [csv.DictReader]: a cell of the line, the
    [restval] ([None]) of a column the line is too short for, or the list
    of surplus cells stored under [restkey]. *)
Inductive cell : Type :=
| CStr (s : string)
| CNone
| CList (l : list string).

(** [bool(v)] *)
Definition truthy (v : cell) : bool :=
  match v with
  | CStr s => str_truthy s
  | CNone => false
  | CList l => match l with [] => false | _ => true end
  end.

(** ** The [csv] module, [excel] dialect

    delimiter comma, quotechar double quote, doublequote, no escapechar, no
    skipinitialspace, lineterminator CR LF, QUOTE_MINIMAL, not strict. *)

Module Csv.

Definition delimiter : ascii := ","%char.
Definition quotechar : ascii := "034"%char.
Definition lineterminator : string := String CR (String LF EmptyString).

(** [csv.field_size_limit()] *)
Definition field_limit : N := 131072.

(** *** Reader ([Modules/_csv.c]) *)

Inductive ParserState : Type :=
| START_RECORD
| START_FIELD
| IN_FIELD
| IN_QUOTED_FIELD
| QUOTE_IN_QUOTED_FIELD
| EAT_CRNL.

Record ReaderObj : Type := mkReader {
  state : ParserState;
  fields : list string;      (* cells of the record parsed so far *)
  field : string             (* cell being built *)
}.

(** A character of the line, or the end-of-line mark the reader feeds
    itself after each line. *)
Inductive input : Type :=
| Ch (c : ascii)
| EOL.

Definition set_state (self : ReaderObj) (st : ParserState) : ReaderObj :=
  mkReader st (fields self) (field self).

Definition parse_reset : ReaderObj := mkReader START_RECORD [] EmptyString.

Definition parse_save_field (self : ReaderObj) : ReaderObj :=
  mkReader (state self) (fields self ++ [field self]) EmptyString.

Definition field_len (self : ReaderObj) : N :=
  N.of_nat (String.length (field self)).

Definition parse_add_char (self : ReaderObj) (c : ascii) : result ReaderObj :=
  if (field_limit <=? field_len self)%N
  then Raise (csv_Error "field larger than field limit (131072)")
  else Ok (mkReader (state self) (fields self)
             (field self +:+ String c EmptyString)).

Definition is_newline (c : ascii) : bool := Ascii.eqb c LF || Ascii.eqb c CR.

(** End of a record's line: save the cell and leave the record. *)
Definition end_of_line (self : ReaderObj) (c : input) : ReaderObj :=
  set_state (parse_save_field self)
    (match c with EOL => START_RECORD | Ch _ => EAT_CRNL end).

(** The [START_FIELD] case, which [START_RECORD] falls through to. *)
Definition start_field (self : ReaderObj) (c : input) : result ReaderObj :=
  match c with
  | EOL => Ok (end_of_line self c)
  | Ch ch =>
      if is_newline ch then Ok (end_of_line self c)
      else if Ascii.eqb ch quotechar then Ok (set_state self IN_QUOTED_FIELD)
      else if Ascii.eqb ch delimiter then Ok (parse_save_field self)
      else self' ← parse_add_char self ch; Ok (set_state self' IN_FIELD)
  end.

Definition parse_process_char (self : ReaderObj) (c : input)
  : result ReaderObj :=
  match state self with
  | START_RECORD =>
      match c with
      | EOL => Ok self
      | Ch ch =>
          if is_newline ch then Ok (set_state self EAT_CRNL)
          else start_field (set_state self START_FIELD) c
      end
  | START_FIELD => start_field self c
  | IN_FIELD =>
      match c with
      | EOL => Ok (end_of_line self c)
      | Ch ch =>
          if is_newline ch then Ok (end_of_line self c)
          else if Ascii.eqb ch delimiter
               then Ok (set_state (parse_save_field self) START_FIELD)
               else parse_add_char self ch
      end
  | IN_QUOTED_FIELD =>
      match c with
      | EOL => Ok self
      | Ch ch =>
          if Ascii.eqb ch quotechar
          then Ok (set_state self QUOTE_IN_QUOTED_FIELD)
          else parse_add_char self ch
      end
  | QUOTE_IN_QUOTED_FIELD =>
      match c with
      | EOL => Ok (end_of_line self c)
      | Ch ch =>
          if Ascii.eqb ch quotechar
          then self' ← parse_add_char self ch;
               Ok (set_state self' IN_QUOTED_FIELD)
          else if Ascii.eqb ch delimiter
               then Ok (set_state (parse_save_field self) START_FIELD)
               else if is_newline ch then Ok (end_of_line self c)
                    else self' ← parse_add_char self ch;
                         Ok (set_state self' IN_FIELD)
      end
  | EAT_CRNL =>
      match c with
      | EOL => Ok (set_state self START_RECORD)
      | Ch ch =>
          if is_newline ch then Ok self
          else Raise (csv_Error "new-line character seen in unquoted field")
      end
  end.

(** The characters of one line, then the end-of-line mark. *)
Fixpoint process_chars (self : ReaderObj) (line : string) : result ReaderObj :=
  match line with
  | EmptyString => Ok self
  | String c r => self' ← parse_process_char self (Ch c); process_chars self' r
  end.

Definition process_line (self : ReaderObj) (line : string) : result ReaderObj :=
  self' ← process_chars self line; parse_process_char self' EOL.

Definition in_quoted_field (self : ReaderObj) : bool :=
  match state self with IN_QUOTED_FIELD => true | _ => false end.

(** The records [Reader_iternext] returns call after call over [lines].
    A record ends with the line that brings the parser back to
    [START_RECORD]; each call starts from [parse_reset]. At the end of the
    input a record left open inside a quoted cell is returned as it is. *)
Fixpoint Reader_iter (self : ReaderObj) (lines : list string)
  : stream (list string) :=
  match lines with
  | [] =>
      if negb (field_len self =? 0)%N || in_quoted_field self
      then SCons (fields (parse_save_field self)) SNil
      else SNil
  | line :: rest =>
      match process_line self line with
      | Raise e => SRaise e
      | Ok self' =>
          match state self' with
          | START_RECORD => SCons (fields self') (Reader_iter parse_reset rest)
          | _ => Reader_iter self' rest
          end
      end
  end.

(** [csv.reader(lines)] *)
Definition reader (lines : list string) : stream (list string) :=
  Reader_iter parse_reset lines.

(** *** Writer ([Modules/_csv.c]) *)

Record WriterObj : Type := mkWriter {
  rec : string;              (* the record being joined *)
  num_fields : nat
}.

Definition join_reset : WriterObj := mkWriter EmptyString 0.

(** Characters that force a cell into quotes. *)
Definition special (c : ascii) : bool :=
  Ascii.eqb c delimiter || Ascii.eqb c quotechar
  || Ascii.eqb c CR || Ascii.eqb c LF.

(** First pass of [join_append_data]: does the cell end up quoted? *)
Fixpoint want_quoted (quoted : bool) (field : string) : bool :=
  match field with
  | EmptyString => quoted
  | String c r => want_quoted (quoted || special c) r
  end.

(** The cell's characters, each quote character doubled. *)
Fixpoint copy_field (field : string) : string :=
  match field with
  | EmptyString => EmptyString
  | String c r =>
      if Ascii.eqb c quotechar
      then String quotechar (String c (copy_field r))
      else String c (copy_field r)
  end.

(** Second pass of [join_append_data]. *)
Definition join_append_data (self : WriterObj) (field : option string)
    (quoted : bool) : string :=
  rec self
  +:+ (if Nat.ltb 0 (num_fields self) then String delimiter EmptyString
       else EmptyString)
  +:+ (if quoted then String quotechar EmptyString else EmptyString)
  +:+ (match field with Some s => copy_field s | None => EmptyString end)
  +:+ (if quoted then String quotechar EmptyString else EmptyString).

Definition join_append (self : WriterObj) (field : option string)
    (quoted : bool) : WriterObj :=
  let quoted :=
    match field with Some s => want_quoted quoted s | None => quoted end in
  mkWriter (join_append_data self field quoted) (S (num_fields self)).

(** One step of the loop of [csv_writerow]: a string goes in as it is,
    [None] as no text, any other value as [str] renders it. *)
Definition append_value (self : WriterObj) (v : pyval) : result WriterObj :=
  match v with
  | PStr s => Ok (join_append self (Some s) false)
  | PNone => Ok (join_append self None false)
  | _ => s ← py_str v; Ok (join_append self (Some s) false)
  end.

(** After the loop: a record that would be empty although it has a field
    is written as a pair of quotes. *)
Definition join_finish (self : WriterObj) : WriterObj :=
  if Nat.ltb 0 (num_fields self) && (String.length (rec self) =? 0)%nat
  then join_append (mkWriter (rec self) (pred (num_fields self))) None true
  else self.

(** [writer.writerow(row)]: the line handed to the file's [write]. *)
Definition csv_writerow (row : list pyval) : result string :=
  self ← foldlM append_value join_reset row;
  Ok (rec (join_finish self) +:+ lineterminator).

(** *** [csv.DictReader] ([Lib/csv.py]) *)

Record DictReader : Type := mkDictReader {
  _fieldnames : option (list string);
  reader_ : stream (list string)     (* what [self.reader] still yields *)
}.

Definition DictReader_init (f : list string) : DictReader :=
  mkDictReader None (reader f).

(** The [fieldnames] property of [csv.DictReader]: the first record of
    the input, read on first use; [None] when the input has none. *)
Definition DictReader_fieldnames (self : DictReader)
  : result (option (list string) * DictReader) :=
  match _fieldnames self with
  | Some names => Ok (Some names, self)
  | None =>
      match reader_ self with
      | SCons row rest => Ok (Some row, mkDictReader (Some row) rest)
      | SNil => Ok (None, self)
      | SRaise e => Raise e
      end
  end.

(** [dict(zip(fieldnames, row))]: a later column of the same name
    overwrites an earlier one. *)
Definition dict_zip (fieldnames row : list string)
  : gmap (option string) cell :=
  foldl (fun d kv => <[Some kv.1 := CStr kv.2]> d) ∅ (zip fieldnames row).

(** The body of [DictReader.__next__] after a non-blank record was read;
    [restkey] and [restval] are both [None]. *)
Definition DictReader_row (fieldnames row : list string)
  : gmap (option string) cell :=
  let d := dict_zip fieldnames row in
  let lf := length fieldnames in
  let lr := length row in
  if Nat.ltb lf lr then <[None := CList (drop lf row)]> d
  else if Nat.ltb lr lf
       then foldl (fun d key => <[Some key := CNone]> d) d (drop lr fieldnames)
       else d.

(** The rows [DictReader.__next__] returns call after call: blank
    records ([row == []]) are skipped, each other record becomes a dict
    keyed by [fieldnames]. *)
Fixpoint DictReader_rows (fieldnames : list string)
    (records : stream (list string)) : stream (gmap (option string) cell) :=
  match records with
  | SNil => SNil
  | SRaise e => SRaise e
  | SCons row rest =>
      match row with
      | [] => DictReader_rows fieldnames rest
      | _ => SCons (DictReader_row fieldnames row)
               (DictReader_rows fieldnames rest)
      end
  end.

(** *** [csv.DictWriter] ([Lib/csv.py]), with the empty string as
    [restval] and [extrasaction] set to ignore *)

Definition _dict_to_list (fieldnames : list string)
    (rowdict : gmap string pyval) : list pyval :=
  map (fun key => default (PStr EmptyString) (rowdict !! key)) fieldnames.

(** [DictWriter.writerow(rowdict)] on a file holding [outfile]. *)
Definition DictWriter_writerow (fieldnames : list string) (outfile : string)
    (rowdict : gmap string pyval) : result string :=
  line ← csv_writerow (_dict_to_list fieldnames rowdict);
  Ok (outfile +:+ line).

(** [DictWriter.writeheader()] *)
Definition DictWriter_writeheader (fieldnames : list string)
    (outfile : string) : result string :=
  let header : gmap string pyval :=
    foldl (fun d kv => <[kv.1 := PStr kv.2]> d) ∅ (zip fieldnames fieldnames) in
  DictWriter_writerow fieldnames outfile header.

End Csv.

(** ** Permission resolver *)

Section Permissions.

(** Users, organizations and API permissions are owned by other modules;
    [get_perms] is guardian's object-permission query,
    [get_all_permissions] the user's global permission set,
    [DB_TO_API_PERMISSION_MAPPING] and [ENROLLMENT_PERMISSIONS_LIST] the
    constants imported from [.permissions] and [api.constants]. *)
Context {User Organization APIPermission : Type}.
Context `{Countable APIPermission}.

Record Program : Type := mkProgram {
  managing_organization : option Organization;
  is_enrollment_enabled : bool
}.

(** What a permission can be granted on. *)
Inductive obj : Type :=
| ProgramObj (p : Program)
| OrganizationObj (o : Organization).

Variable get_perms : User -> obj -> list string.
Variable get_all_permissions : User -> gset string.
Variable DB_TO_API_PERMISSION_MAPPING : gmap string APIPermission.
Variable ENROLLMENT_PERMISSIONS_LIST : list APIPermission.

(** One turn of the loop of [get_user_api_permissions]. *)
Definition add_api_permission (user_api_permissions : gset APIPermission)
    (db_perm : string) : gset APIPermission :=
  match DB_TO_API_PERMISSION_MAPPING !! db_perm with
  | Some api_perm => user_api_permissions ∪ {[api_perm]}
  | None => user_api_permissions
  end.

Definition get_user_api_permissions (user : User) (o : option obj)
  : gset APIPermission :=
  let user_object_permissions :=
    match o with Some o => get_perms user o | None => [] end in
  let user_global_permissions := elements (get_all_permissions user) in
  foldl add_api_permission ∅
    (user_object_permissions ++ user_global_permissions).

Definition _remove_permissions_if_enrollments_disabled (program : Program)
    (user_permissions : gset APIPermission) : gset APIPermission :=
  if negb (is_enrollment_enabled program)
  then user_permissions ∖ list_to_set ENROLLMENT_PERMISSIONS_LIST
  else user_permissions.

Definition get_effective_user_program_api_permissions (user : User)
    (program : Program) : gset APIPermission :=
  let user_permissions :=
    get_user_api_permissions user (Some (ProgramObj program))
    ∪ get_user_api_permissions user
        (OrganizationObj <$> managing_organization program) in
  _remove_permissions_if_enrollments_disabled program user_permissions.

End Permissions.

(** ** CSV utilities *)

Definition serialize_to_csv (items : list (gmap string pyval))
    (field_names : list string) (include_headers : bool) : result string :=
  let outfile := EmptyString in
  outfile ← (if include_headers
             then Csv.DictWriter_writeheader field_names outfile
             else Ok outfile);
  foldlM (Csv.DictWriter_writerow field_names) outfile items.

Module StrippedLowercaseFieldNamesDictReader.

(** The overriding [fieldnames] property. Iterating over the [None] that
    the inherited property returns for an input without a first record
    raises [TypeError]. *)
Definition fieldnames (self : Csv.DictReader)
  : result (list string * Csv.DictReader) :=
  '(raw_field_names, self) ← Csv.DictReader_fieldnames self;
  match raw_field_names with
  | None => Raise TypeError
  | Some raw_field_names =>
      Ok (map (fun field_name => lower (strip field_name)) raw_field_names,
          self)
  end.

(** Iteration, inherited from [csv.DictReader]: [__next__] evaluates
    [self.fieldnames], which is the property above, before it reads a
    record and again to build the dict. [__next__] skips the first
    evaluation once [line_num] is not 0, that is once the header record was
    read; the property then returns the same names without reading
    anything, so the test is not modelled. *)
Definition iter (self : Csv.DictReader) : stream (gmap (option string) cell) :=
  match fieldnames self with
  | Raise e => SRaise e
  | Ok (names, self) => Csv.DictReader_rows names (Csv.reader_ self)
  end.

End StrippedLowercaseFieldNamesDictReader.

(** [all(row[field] for field in required_fields)] *)
Fixpoint all_required (row : gmap (option string) cell)
    (required_fields : list string) : result bool :=
  match required_fields with
  | [] => Ok true
  | field :: rest =>
      match row !! Some field with
      | None => Raise KeyError
      | Some val => if truthy val then all_required row rest else Ok false
      end
  end.

(** The dict comprehension building [stripped_row] from [row.items()]. *)
Fixpoint strip_items (field_names : gset string)
    (items : list (option string * cell)) (stripped_row : gmap string string)
  : result (gmap string string) :=
  match items with
  | [] => Ok stripped_row
  | (field, val) :: rest =>
      match field with
      | Some field =>
          if bool_decide (field ∈ field_names) then
            match val with
            | CStr val =>
                strip_items field_names rest (<[field := strip val]> stripped_row)
            | _ => Raise AttributeError
            end
          else strip_items field_names rest stripped_row
      | None => strip_items field_names rest stripped_row
      end
  end.

Definition missing_headers_message (missing_fields : gset string) : string :=
  "CSV is missing headers [" +:+ join ", " (elements missing_fields) +:+ "]".

Definition missing_data_message (n : nat) (field_names : gset string) : string :=
  "CSV is missing data at row #" +:+ pretty n
  +:+ ". Required fields are [" +:+ join ", " (elements field_names) +:+ "].".

(** [None in row or not all(row[field] for field in required_fields)] *)
Definition row_lacks_data (row : gmap (option string) cell)
    (required_fields : gset string) : result bool :=
  if bool_decide (is_Some (row !! None)) then Ok true
  else all_ok ← all_required row (elements required_fields); Ok (negb all_ok).

(** The [for n, row in enumerate(reader, 1)] loop. *)
Fixpoint load_rows (field_names required_fields : gset string) (n : nat)
    (rows : stream (gmap (option string) cell))
    (records : list (gmap string string)) : result (list (gmap string string)) :=
  match rows with
  | SNil => Ok records
  | SRaise e => Raise e
  | SCons row rest =>
      bad ← row_lacks_data row required_fields;
      if bad : bool
      then Raise (ValidationError (missing_data_message n field_names))
      else
        stripped_row ← strip_items field_names (map_to_list row) ∅;
        load_rows field_names required_fields (S n) rest
          (records ++ [stripped_row])
  end.

Definition load_records_from_csv (csv_string : string)
    (field_names optional_fields : gset string)
  : result (list (gmap string string)) :=
  let row_iter := splitlines csv_string in
  let reader := Csv.DictReader_init row_iter in
  let required_fields := field_names ∖ optional_fields in
  '(fieldnames, reader) ← StrippedLowercaseFieldNamesDictReader.fieldnames reader;
  let missing_fields := required_fields ∖ list_to_set fieldnames in
  if bool_decide (missing_fields ≠ ∅)
  then Raise (ValidationError (missing_headers_message missing_fields))
  else load_rows field_names required_fields 1
         (StrippedLowercaseFieldNamesDictReader.iter reader) [].

(** ** Vocabulary of the statements *)

(** The text a value has in a cell: a string as it is, a boolean as
    [True] or [False], [None] as nothing, an integer in decimal digits
    unless it has more than 4300 of them, in which case there is no text
    and the writer raises [ValueError]. *)
Definition cell_text (v : pyval) : result string :=
  match v with
  | PStr s => Ok s
  | PBool true => Ok "True"
  | PBool false => Ok "False"
  | PInt z =>
      if (4300 <? N.of_nat (String.length (pretty (Z.abs_N z))))%N
      then Raise ValueError
      else Ok (pretty z)
  | PNone => Ok EmptyString
  end.

(** The texts of the values an item holds for the names [fn], a missing
    key counting as the empty string. *)
Definition item_texts (fn : list string) (item : gmap string pyval)
    (texts : list string) : Prop :=
  Forall2 (fun f t => cell_text (default (PStr EmptyString) (item !! f)) = Ok t)
    fn texts.

(** Every character of [s] passes [P]. *)
Fixpoint str_forall (P : ascii -> bool) (s : string) : bool :=
  match s with
  | EmptyString => true
  | String c r => P c && str_forall P r
  end.

(** A text that [str.splitlines] leaves in one piece and that fits in one
    field of the reader. *)
Definition line_safe (s : string) : bool :=
  str_forall (fun c => negb (is_linebreak c)) s
  && (N.of_nat (String.length s) <=? Csv.field_limit)%N.

(** The iterator that yields the items of a list and stops. *)
Fixpoint stream_of_list {A : Type} (l : list A) : stream A :=
  match l with
  | [] => SNil
  | a :: l => SCons a (stream_of_list l)
  end.

(** A row the loop accepts, and the record it appends for it. *)
Definition accepted (fn req : gset string) (row : gmap (option string) cell)
    (record : gmap string string) : Prop :=
  row !! None = None
  ∧ all_required row (elements req) = Ok true
  ∧ strip_items fn (map_to_list row) ∅ = Ok record.

(** A string that [lstrip] leaves as it is. *)
Definition no_leading_space (s : string) : Prop :=
  match s with
  | EmptyString => True
  | String c _ => is_space c = false
  end.

(** The writer's step for a value whose text is [t]. *)
Definition append_text (self : Csv.WriterObj) (t : string) : Csv.WriterObj :=
  Csv.join_append self (Some t) false.

(** The record buffer after the texts of a row were joined. *)
Definition join_texts (texts : list string) : Csv.WriterObj :=
  Csv.join_finish (foldl append_text Csv.join_reset texts).

(** The text the writer produces for one cell. *)
Definition written_cell (s : string) : string :=
  (if Csv.want_quoted false s then String Csv.quotechar EmptyString
   else EmptyString)
  +:+ Csv.copy_field s
  +:+ (if Csv.want_quoted false s then String Csv.quotechar EmptyString
       else EmptyString).

(** The parser stands at the end of a cell whose text is complete. *)
Definition at_cell_end (self : Csv.ReaderObj) (line_so_far : string) : Prop :=
  Csv.state self = Csv.IN_FIELD
  ∨ Csv.state self = Csv.QUOTE_IN_QUOTED_FIELD
  ∨ (Csv.field self = EmptyString
     ∧ (Csv.state self = Csv.START_FIELD
        ∨ (Csv.state self = Csv.START_RECORD ∧ line_so_far = EmptyString))).

(** A text the reader takes as one field without hitting the field size
    limit. *)
Definition fits_field (t : string) : Prop :=
  (N.of_nat (String.length t) <= Csv.field_limit)%N.

(** The texts of the values of a row, up to the first that has none. *)
Fixpoint row_texts (row : list pyval) : result (list string) :=
  match row with
  | [] => Ok []
  | v :: row => t ← cell_text v; ts ← row_texts row; Ok (t :: ts)
  end.

(** The lines written for a list of items, one after the other. *)
Fixpoint rows_text (fn : list string) (items : list (gmap string pyval))
  : result string :=
  match items with
  | [] => Ok EmptyString
  | item :: items =>
      line ← Csv.csv_writerow (Csv._dict_to_list fn item);
      rest ← rows_text fn items;
      Ok (line +:+ rest)
  end.

(** ** Organizations of a user *)

Section Organizations.

(** [groups_all] is [user.groups.all()], [group_id] the [id] of a group and
    [OrganizationGroup_objects] the organization of the [OrganizationGroup]
    row stored under each id; [OrganizationGroup.objects.get(id=...)] raises
    [DoesNotExist] where the table has no row. *)
Context {User Group Organization : Type}.
Context `{Countable Organization}.

Variable groups_all : User -> list Group.
Variable group_id : Group -> Z.
Variable OrganizationGroup_objects : gmap Z Organization.

(** One turn of the loop of [get_user_organizations]. *)
Definition add_organization (user_organizations : gset Organization)
    (group : Group) : gset Organization :=
  match OrganizationGroup_objects !! group_id group with
  | Some organization => user_organizations ∪ {[organization]}
  | None => user_organizations
  end.

Definition get_user_organizations (user : User) : gset Organization :=
  let user_groups := groups_all user in
  foldl add_organization ∅ user_groups.

End Organizations.

(** ** Further vocabulary *)

(** The exception that ends an iterator, if one does. *)
Fixpoint stream_raises {A : Type} (s : stream A) : option exn :=
  match s with
  | SNil => None
  | SCons _ s => stream_raises s
  | SRaise e => Some e
  end.

(** A record of the reader that is not a blank line. *)
Definition nonblank (record : list string) : bool :=
  match record with [] => false | _ => true end.

(** CSV text as the format has it, written without reference to the
    writer: the characters that put a cell between quotes are the comma
    (44), the double quote (34), CR (13) and LF (10). *)
Definition needs_quotes (c : ascii) : bool :=
  let n := N_of_ascii c in
  ((n =? 44) || (n =? 34) || (n =? 13) || (n =? 10))%N.

(** Every double quote written twice. *)
Fixpoint double_quotes (s : string) : string :=
  match s with
  | EmptyString => EmptyString
  | String c r =>
      if (N_of_ascii c =? 34)%N then String c (String c (double_quotes r))
      else String c (double_quotes r)
  end.

(** A cell as CSV text: as it is when it holds no comma, quote, CR or LF,
    and otherwise between double quotes with every double quote doubled. *)
Definition encode_cell (s : string) : string :=
  if str_forall (fun c => negb (needs_quotes c)) s then s
  else String "034" (double_quotes s +:+ String "034" EmptyString).

(** A record as CSV text: the cells joined by commas; a single empty cell
    is a pair of double quotes. *)
Definition encode_record (cells : list string) : string :=
  match cells with
  | [] => EmptyString
  | _ =>
      match String.concat "," (map encode_cell cells) with
      | EmptyString => String "034" (String "034" EmptyString)
      | body => body
      end
  end.

(** The iterator that yields one more blank record before it stops. *)
Fixpoint with_blank_end (s : stream (list string)) : stream (list string) :=
  match s with
  | SNil => SCons [] SNil
  | SCons r s => SCons r (with_blank_end s)
  | SRaise e => SRaise e
  end.

(** * Properties *)

(** ** Permission resolver *)

Section PermissionProperties.

Context {User Organization APIPermission : Type}.
Context `{Countable APIPermission}.
Variable get_perms : User -> @obj Organization -> list string.
Variable get_all_permissions : User -> gset string.
Variable DB_TO_API_PERMISSION_MAPPING : gmap string APIPermission.
Variable ENROLLMENT_PERMISSIONS_LIST : list APIPermission.

Local Abbreviation add := (add_api_permission DB_TO_API_PERMISSION_MAPPING).
Local Abbreviation resolve :=
  (get_user_api_permissions get_perms get_all_permissions
     DB_TO_API_PERMISSION_MAPPING).

(** The loop adds exactly the images of the mapped identifiers. *)
Lemma elem_of_foldl_add_api_permission (db_perms : list string)
    (acc : gset APIPermission) (p : APIPermission) :
  p ∈ foldl add acc db_perms ↔
  p ∈ acc ∨
  ∃ db_perm, db_perm ∈ db_perms ∧
             DB_TO_API_PERMISSION_MAPPING !! db_perm = Some p.
Proof.
  revert acc. induction db_perms as [|d l IH]; intros acc; simpl.
  - split; [by left | intros [?|(? & Hin & _)]; [done | inversion Hin]].
  - rewrite IH. unfold add_api_permission.
    destruct (DB_TO_API_PERMISSION_MAPPING !! d) as [q|] eqn:Hd.
    + rewrite elem_of_union, elem_of_singleton. split.
      * intros [[?| ->]|(x & ? & ?)]; [by left | right | right].
        -- exists d. split; [left | done].
        -- exists x. split; [by right | done].
      * intros [?|(x & Hin & Hx)]; [by left; left |].
        apply elem_of_cons in Hin as [->|?].
        -- left; right. congruence.
        -- right. by exists x.
    + split.
      * intros [?|(x & ? & ?)]; [by left | right].
        exists x. split; [by right | done].
      * intros [?|(x & Hin & Hx)]; [by left |].
        apply elem_of_cons in Hin as [->|?]; [congruence |].
        right. by exists x.
Qed.

(** C1: the effective permissions of a user on a program are the union of
    the permissions resolved on the program and on its managing
    organization when enrollment is enabled, and that union minus the
    enrollment permissions when it is not. *)
Theorem get_effective_user_program_api_permissions_eq
    (user : User) (program : Program) :
  get_effective_user_program_api_permissions get_perms get_all_permissions
    DB_TO_API_PERMISSION_MAPPING ENROLLMENT_PERMISSIONS_LIST user program
  = if is_enrollment_enabled program
    then resolve user (Some (ProgramObj program))
         ∪ resolve user (OrganizationObj <$> managing_organization program)
    else (resolve user (Some (ProgramObj program))
          ∪ resolve user (OrganizationObj <$> managing_organization program))
         ∖ list_to_set ENROLLMENT_PERMISSIONS_LIST.
Proof.
  unfold get_effective_user_program_api_permissions,
    _remove_permissions_if_enrollments_disabled.
  by destruct (is_enrollment_enabled program).
Qed.

(** C2: the permissions resolved for a user on an object, or on no
    object, lie in the range of the mapping table; a permission is in the
    result exactly when some collected identifier (object-scoped or
    global) is a key mapped to it, so unmapped identifiers contribute
    nothing; without an object only the global identifiers are
    collected. *)
Theorem get_user_api_permissions_mapped (user : User) (o : option obj) :
  resolve user o ⊆ map_img DB_TO_API_PERMISSION_MAPPING
  ∧ (∀ p, p ∈ resolve user o ↔
          ∃ db_perm,
            db_perm ∈ ((match o with
                        | Some o => get_perms user o
                        | None => []
                        end) ++ elements (get_all_permissions user))%list
            ∧ DB_TO_API_PERMISSION_MAPPING !! db_perm = Some p)
  ∧ (∀ p, p ∈ resolve user None ↔
          ∃ db_perm, db_perm ∈ get_all_permissions user
                     ∧ DB_TO_API_PERMISSION_MAPPING !! db_perm = Some p).
Proof.
  assert (Hchar : ∀ o' p, p ∈ resolve user o' ↔
            ∃ db_perm,
              db_perm ∈ ((match o' with
                          | Some o => get_perms user o
                          | None => []
                          end) ++ elements (get_all_permissions user))%list
              ∧ DB_TO_API_PERMISSION_MAPPING !! db_perm = Some p).
  { intros o' p. unfold get_user_api_permissions.
    rewrite elem_of_foldl_add_api_permission. split.
    - intros [Hin|?]; [by apply not_elem_of_empty in Hin | done].
    - by right. }
  split; [|split].
  - intros p [db [_ Hdb]]%Hchar. apply elem_of_map_img. by exists db.
  - apply Hchar.
  - intros p. rewrite Hchar. simpl.
    split; intros (db & Hin & Hdb); exists db; split; try done.
    + by apply elem_of_elements.
    + by apply elem_of_elements.
Qed.

End PermissionProperties.

(** ** CSV loader: the loop body *)

Local Abbreviation normalize := (fun field_name : string => lower (strip field_name)).

Lemma all_required_true (row : gmap (option string) cell) (fs : list string) :
  all_required row fs = Ok true ↔
  ∀ f, f ∈ fs → ∃ v, row !! Some f = Some v ∧ truthy v = true.
Proof.
  induction fs as [|f fs IH]; simpl.
  - split; [intros _ f Hf; inversion Hf | done].
  - destruct (row !! Some f) as [v|] eqn:Hv.
    + destruct (truthy v) eqn:Ht.
      * rewrite IH. split.
        -- intros Hall g [->|Hg]%elem_of_cons; [by exists v | by apply Hall].
        -- intros Hall g Hg. apply Hall. by right.
      * split; [done |]. intros Hall.
        destruct (Hall f) as (v' & Hv' & Ht'); [by left |]. congruence.
    + split; [done |]. intros Hall.
      destruct (Hall f) as (v' & Hv' & _); [by left |]. congruence.
Qed.

(** What the comprehension stores for the items it keeps, and that it
    leaves every other key of the accumulator alone. *)
Lemma strip_items_spec (fn : gset string) (items : list (option string * cell))
    (acc record : gmap string string) :
  NoDup items.*1 →
  strip_items fn items acc = Ok record →
  (∀ f v, (Some f, v) ∈ items → f ∈ fn →
          ∃ s, v = CStr s ∧ record !! f = Some (strip s))
  ∧ (∀ f, f ∉ fn ∨ Some f ∉ items.*1 → record !! f = acc !! f).
Proof.
  revert acc. induction items as [|[k v0] rest IH]; intros acc Hnd Hrun.
  - simpl in Hrun. injection Hrun as <-. split; [|done].
    intros f v Hin. inversion Hin.
  - apply NoDup_cons in Hnd as [Hk Hnd]. simpl in Hrun, Hk.
    destruct k as [f0|].
    + case_bool_decide as Hf0.
      * destruct v0 as [s0| |]; try discriminate.
        destruct (IH _ Hnd Hrun) as [IHa IHc]. split.
        -- intros f v [Heq|Hin]%elem_of_cons Hf.
           ++ injection Heq as -> ->. exists s0. split; [done |].
              rewrite IHc by (by right). apply lookup_insert_eq.
           ++ by apply IHa.
        -- intros f Hf. rewrite IHc.
           ++ apply lookup_insert_ne. intros ->. destruct Hf as [Hf|Hf]; [done |].
              apply Hf. simpl. left.
           ++ destruct Hf as [Hf|Hf]; [by left | right].
              intros Hin. apply Hf. simpl. by right.
      * destruct (IH _ Hnd Hrun) as [IHa IHc]. split.
        -- intros f v [Heq|Hin]%elem_of_cons Hf.
           ++ injection Heq as -> ->. done.
           ++ by apply IHa.
        -- intros f Hf. apply IHc.
           destruct Hf as [Hf|Hf]; [by left | right].
           intros Hin. apply Hf. simpl. by right.
    + destruct (IH _ Hnd Hrun) as [IHa IHc]. split.
      * intros f v [Heq|Hin]%elem_of_cons Hf; [discriminate | by apply IHa].
      * intros f Hf. apply IHc.
        destruct Hf as [Hf|Hf]; [by left | right].
        intros Hin. apply Hf. simpl. by right.
Qed.

(** The comprehension only fails on a requested column whose value is not
    a string. *)
Lemma strip_items_total (fn : gset string) (items : list (option string * cell))
    (acc : gmap string string) :
  (∀ f v, (Some f, v) ∈ items → f ∈ fn → ∃ s, v = CStr s) →
  ∃ record, strip_items fn items acc = Ok record.
Proof.
  revert acc. induction items as [|[k v0] rest IH]; intros acc Hstr; simpl.
  - by eexists.
  - assert (Hrest : ∀ f v, (Some f, v) ∈ rest → f ∈ fn → ∃ s, v = CStr s).
    { intros f v Hin. apply Hstr. by right. }
    destruct k as [f0|]; [|by apply IH].
    case_bool_decide as Hf0; [|by apply IH].
    destruct (Hstr f0 v0) as [s ->]; [by left | done |]. by apply IH.
Qed.

(** The value a record holds for a cell of the row. *)
Lemma strip_row_spec (fn : gset string) (row : gmap (option string) cell)
    (record : gmap string string) :
  strip_items fn (map_to_list row) ∅ = Ok record →
  (∀ f v, row !! Some f = Some v → f ∈ fn →
          ∃ s, v = CStr s ∧ record !! f = Some (strip s))
  ∧ (∀ f, f ∉ fn ∨ row !! Some f = None → record !! f = None).
Proof.
  intros Hrun.
  destruct (strip_items_spec fn (map_to_list row) ∅ record) as [Ha Hc];
    [apply NoDup_fst_map_to_list | done |].
  split.
  - intros f v Hv. apply Ha. by apply elem_of_map_to_list.
  - intros f Hf. rewrite Hc; [done |].
    destruct Hf as [Hf|Hf]; [by left | right].
    intros [[k v] [Hk Hin]]%list_elem_of_fmap. simpl in Hk. subst k.
    apply elem_of_map_to_list in Hin. congruence.
Qed.

Lemma load_rows_Ok (fn req : gset string) (n : nat)
    (rows : stream (gmap (option string) cell))
    (acc records : list (gmap string string)) :
  load_rows fn req n rows acc = Ok records →
  ∃ new, records = (acc ++ new)%list
         ∧ Forall2 (accepted fn req) (stream_items rows) new.
Proof.
  revert n acc. induction rows as [|row rest IH|e]; intros n acc Hrun;
    simpl in Hrun.
  - injection Hrun as <-. exists []. by rewrite app_nil_r.
  - unfold row_lacks_data in Hrun.
    case_bool_decide as Hnone; [discriminate |].
    destruct (all_required row (elements req)) as [[]|] eqn:Hall;
      simpl in Hrun; try discriminate.
    destruct (strip_items fn (map_to_list row) ∅) as [record|] eqn:Hstrip;
      simpl in Hrun; try discriminate.
    destruct (IH _ _ Hrun) as (new & -> & Hnew).
    exists (record :: new). split; [by rewrite <- app_assoc |].
    simpl. constructor; [|done].
    split; [|done]. by apply eq_None_not_Some.
  - discriminate.
Qed.

(** ** CSV loader: the rows of [csv.DictReader] *)

Lemma foldl_zip_insert_is_Some (l : list (string * string))
    (d : gmap (option string) cell) (k : option string) :
  is_Some (foldl (fun d kv => <[Some kv.1 := CStr kv.2]> d) d l !! k) ↔
  is_Some (d !! k) ∨ ∃ f, k = Some f ∧ f ∈ l.*1.
Proof.
  revert d. induction l as [|[f0 v0] l IH]; intros d; simpl.
  - split; [by left | intros [?|(f & _ & Hf)]; [done | inversion Hf]].
  - rewrite IH, lookup_insert_is_Some. split.
    + intros [[<-|[_ ?]]|(f & -> & Hf)].
      * right. exists f0. split; [done | left].
      * by left.
      * right. exists f. split; [done | by right].
    + intros [Hd|(f & -> & [->|Hf]%elem_of_cons)].
      * destruct (decide (Some f0 = k)); [by left; left | by left; right].
      * by left; left.
      * right. by exists f.
Qed.

Lemma foldl_pad_is_Some (l : list string) (d : gmap (option string) cell)
    (k : option string) :
  is_Some (foldl (fun d key => <[Some key := CNone]> d) d l !! k) ↔
  is_Some (d !! k) ∨ ∃ f, k = Some f ∧ f ∈ l.
Proof.
  revert d. induction l as [|f0 l IH]; intros d; simpl.
  - split; [by left | intros [?|(f & _ & Hf)]; [done | inversion Hf]].
  - rewrite IH, lookup_insert_is_Some. split.
    + intros [[<-|[_ ?]]|(f & -> & Hf)].
      * right. exists f0. split; [done | left].
      * by left.
      * right. exists f. split; [done | by right].
    + intros [Hd|(f & -> & [->|Hf]%elem_of_cons)].
      * destruct (decide (Some f0 = k)); [by left; left | by left; right].
      * by left; left.
      * right. by exists f.
Qed.

(** Zipped and padded, every column name is a key, whatever the length of
    the line. *)
Lemma zip_pad_is_Some (names row : list string) (d : gmap (option string) cell)
    (k : option string) :
  is_Some (foldl (fun d key => <[Some key := CNone]> d)
             (foldl (fun d kv => <[Some kv.1 := CStr kv.2]> d) d (zip names row))
             (drop (length row) names) !! k) ↔
  is_Some (d !! k) ∨ ∃ f, k = Some f ∧ f ∈ names.
Proof.
  revert row d. induction names as [|n names IH]; intros row d.
  - rewrite drop_nil. simpl.
    split; [by left | intros [?|(f & _ & Hf)]; [done | inversion Hf]].
  - destruct row as [|r row].
    + simpl zip. simpl foldl at 2. rewrite drop_0. apply foldl_pad_is_Some.
    + simpl. rewrite IH, lookup_insert_is_Some. split.
      * intros [[<-|[_ ?]]|(f & -> & Hf)].
        -- right. exists n. split; [done | left].
        -- by left.
        -- right. exists f. split; [done | by right].
      * intros [Hd|(f & -> & [->|Hf]%elem_of_cons)].
        -- destruct (decide (Some n = k)); [by left; left | by left; right].
        -- by left; left.
        -- right. by exists f.
Qed.

(** The string keys of a row are the column names. *)
Lemma DictReader_row_keys (names row : list string) (f : string) :
  is_Some (Csv.DictReader_row names row !! Some f) ↔ f ∈ names.
Proof.
  assert (Hpad : is_Some (foldl (fun d key => <[Some key := CNone]> d)
                   (Csv.dict_zip names row) (drop (length row) names) !! Some f)
                 ↔ f ∈ names).
  { unfold Csv.dict_zip. rewrite zip_pad_is_Some, lookup_empty. split.
    - intros [[? ?]|(g & [= ->] & ?)]; done.
    - intros ?. right. by exists f. }
  unfold Csv.DictReader_row.
  destruct (Nat.ltb_spec (length names) (length row)) as [Hlong|Hle].
  - rewrite lookup_insert_ne by done. rewrite <- Hpad.
    rewrite drop_ge by lia. done.
  - destruct (Nat.ltb_spec (length row) (length names)) as [Hshort|Hge];
      [done |].
    rewrite <- Hpad. rewrite drop_ge by lia. done.
Qed.

(** Each row of the stream was built from some record of the input. *)
Lemma DictReader_rows_items (names : list string) (records : stream (list string)) :
  Forall (fun row => ∃ r, row = Csv.DictReader_row names r)
    (stream_items (Csv.DictReader_rows names records)).
Proof.
  induction records as [|r rest IH|e]; simpl; try constructor.
  destruct r as [|c r]; [done |]. simpl. constructor; [by eexists | done].
Qed.

(** ** CSV loader: the whole function *)

Lemma load_records_from_csv_eq (csv : string) (fn opt : gset string) :
  load_records_from_csv csv fn opt =
  match Csv.reader (splitlines csv) with
  | SNil => Raise TypeError
  | SRaise e => Raise e
  | SCons raw rest =>
      let names := map normalize raw in
      if bool_decide ((fn ∖ opt) ∖ list_to_set names ≠ ∅)
      then Raise (ValidationError
                    (missing_headers_message ((fn ∖ opt) ∖ list_to_set names)))
      else load_rows fn (fn ∖ opt) 1 (Csv.DictReader_rows names rest) []
  end.
Proof.
  unfold load_records_from_csv, StrippedLowercaseFieldNamesDictReader.fieldnames,
    Csv.DictReader_init, Csv.DictReader_fieldnames. simpl.
  destruct (Csv.reader (splitlines csv)); reflexivity.
Qed.

(** What a successful load tells about the input. *)
Lemma load_records_from_csv_Ok (csv : string) (fn opt : gset string)
    (records : list (gmap string string)) :
  load_records_from_csv csv fn opt = Ok records →
  ∃ raw rest,
    Csv.reader (splitlines csv) = SCons raw rest
    ∧ fn ∖ opt ⊆ list_to_set (map normalize raw)
    ∧ Forall2 (accepted fn (fn ∖ opt))
        (stream_items (Csv.DictReader_rows (map normalize raw) rest)) records.
Proof.
  rewrite load_records_from_csv_eq.
  destruct (Csv.reader (splitlines csv)) as [|raw rest|e]; try discriminate.
  simpl. case_bool_decide as Hmiss; [discriminate |]. intros Hrun.
  apply load_rows_Ok in Hrun as (new & -> & Hnew).
  exists raw, rest. split; [done |]. split; [|done].
  intros f Hf. destruct (decide (f ∈ (list_to_set (map normalize raw) : gset string)))
    as [|Hnot]; [done |].
  exfalso.
  assert (f ∈ (fn ∖ opt) ∖ (list_to_set (map normalize raw) : gset string))
    as Hin by (by apply elem_of_difference).
  rewrite Hmiss in Hin. by apply not_elem_of_empty in Hin.
Qed.

(** ** [str.strip] *)

Lemma lstrip_no_leading_space (s : string) : no_leading_space (lstrip s).
Proof.
  induction s as [|c r IH]; simpl; [done |].
  destruct (is_space c) eqn:Hc; [done | by simpl].
Qed.

Lemma lstrip_id (s : string) : no_leading_space s → lstrip s = s.
Proof. destruct s as [|c r]; simpl; [done | by intros ->]. Qed.

Lemma rstrip_no_leading_space (s : string) :
  no_leading_space s → no_leading_space (rstrip s).
Proof.
  destruct s as [|c r]; simpl; [done |]. intros Hc.
  destruct (rstrip r); simpl; [by rewrite Hc | done].
Qed.

Lemma rstrip_idemp (s : string) : rstrip (rstrip s) = rstrip s.
Proof.
  induction s as [|c r IH]; simpl; [done |].
  destruct (rstrip r) as [|c' r'] eqn:Hr.
  - destruct (is_space c) eqn:Hc; simpl; [done | by rewrite Hc].
  - change (rstrip (String c (String c' r'))) with
      (match rstrip (String c' r') with
       | EmptyString => if is_space c then EmptyString else String c EmptyString
       | r'' => String c r''
       end).
    by rewrite IH.
Qed.

(** A stripped string has nothing left to strip. *)
Lemma strip_idemp (s : string) : strip (strip s) = strip s.
Proof.
  unfold strip.
  rewrite (lstrip_id (rstrip (lstrip s)))
    by apply rstrip_no_leading_space, lstrip_no_leading_space.
  apply rstrip_idemp.
Qed.

(** ** The claims on [load_records_from_csv] *)

(** C3, as the code has it: a load that returns records found every
    required field among the trimmed, lowercased header names, and every
    returned record was built from a row whose value for every required
    field is a non-empty string; the record holds that value trimmed (so it
    is empty when the value was only whitespace). *)
Theorem load_records_from_csv_required (csv : string) (fn opt : gset string)
    (records : list (gmap string string)) :
  load_records_from_csv csv fn opt = Ok records →
  ∃ raw rest,
    Csv.reader (splitlines csv) = SCons raw rest
    ∧ (∀ f, f ∈ fn ∖ opt → ∃ h, h ∈ raw ∧ lower (strip h) = f)
    ∧ Forall2
        (fun row record =>
           ∀ f, f ∈ fn ∖ opt →
                ∃ v, row !! Some f = Some (CStr v) ∧ v ≠ EmptyString
                     ∧ record !! f = Some (strip v))
        (stream_items (Csv.DictReader_rows (map normalize raw) rest)) records.
Proof.
  intros (raw & rest & Hraw & Hhead & Hrows)%load_records_from_csv_Ok.
  exists raw, rest. split; [done |]. split.
  - intros f Hf. apply Hhead in Hf.
    apply elem_of_list_to_set, list_elem_of_fmap in Hf as (h & -> & Hh).
    by exists h.
  - eapply Forall2_impl; [exact Hrows |].
    intros row record (_ & Hall & Hstrip) f Hf.
    destruct (proj1 (all_required_true _ _) Hall f) as (c & Hc & Ht);
      [by apply elem_of_elements |].
    destruct (proj1 (strip_row_spec _ _ _ Hstrip) f c Hc) as (s & -> & Hrec);
      [by apply elem_of_difference in Hf as [? _] |].
    exists s. split; [done |]. split; [|done].
    intros ->. discriminate.
Qed.

(** C6, as the code has it: in every returned record the keys are the
    requested fields that occur among the trimmed, lowercased header names,
    so every key is requested, every required field is a key, and an
    optional field is a key only when its column exists; every value is
    trimmed. *)
Theorem load_records_from_csv_keys (csv : string) (fn opt : gset string)
    (records : list (gmap string string)) :
  load_records_from_csv csv fn opt = Ok records →
  ∃ raw rest,
    Csv.reader (splitlines csv) = SCons raw rest
    ∧ Forall
        (fun record : gmap string string =>
           (∀ f, is_Some (record !! f) ↔ f ∈ fn ∧ f ∈ map normalize raw)
           ∧ (∀ f, f ∈ fn ∖ opt → is_Some (record !! f))
           ∧ (∀ f v, record !! f = Some v → strip v = v))
        records.
Proof.
  intros (raw & rest & Hraw & Hhead & Hrows)%load_records_from_csv_Ok.
  exists raw, rest. split; [done |].
  eapply Forall2_Forall_r; [exact Hrows |].
  eapply Forall_impl; [apply DictReader_rows_items |].
  intros row [r ->] record (_ & _ & Hstrip).
  destruct (strip_row_spec _ _ _ Hstrip) as [Hkept Hdropped].
  assert (Hkeys : ∀ f, is_Some (record !! f) ↔ f ∈ fn ∧ f ∈ map normalize raw).
  { intros f. split.
    - intros Hsome. destruct (decide (f ∈ fn)) as [Hf|Hf].
      + split; [done |]. apply (DictReader_row_keys _ r).
        destruct (Csv.DictReader_row (map normalize raw) r !! Some f) eqn:Hrow;
          [done |].
        rewrite Hdropped in Hsome by (by right). by destruct Hsome.
      + rewrite Hdropped in Hsome by (by left). by destruct Hsome.
    - intros [Hf [c Hc]%(DictReader_row_keys _ r)].
      destruct (Hkept f c Hc Hf) as (s & _ & ->). done. }
  split; [done |]. split.
  - intros f Hf. apply Hkeys.
    split; [by apply elem_of_difference in Hf as [? _] |].
    apply Hhead in Hf. by apply elem_of_list_to_set in Hf.
  - intros f v Hv.
    assert (is_Some (record !! f)) as [Hf [c Hc]%(DictReader_row_keys _ r)]%Hkeys
      by done.
    destruct (Hkept f c Hc Hf) as (s & _ & Hrec).
    assert (v = strip s) as -> by congruence. apply strip_idemp.
Qed.

(** C10: on the empty string there is no header record, the overriding
    [fieldnames] property iterates over [None], and the load ends in a
    [TypeError], not in a [ValidationError]. *)
Theorem load_records_from_csv_empty_string (fn opt : gset string) :
  load_records_from_csv EmptyString fn opt = Raise TypeError
  ∧ ∀ detail, load_records_from_csv EmptyString fn opt
              ≠ Raise (ValidationError detail).
Proof. split; [reflexivity | discriminate]. Qed.

(** ** Header matching *)

(** The string cells of a row are cells of the record as it was parsed. *)
Lemma foldl_zip_insert_cell (names r : list string)
    (d : gmap (option string) cell) (k : option string) (v : string) :
  foldl (fun d kv => <[Some kv.1 := CStr kv.2]> d) d (zip names r) !! k
    = Some (CStr v) →
  d !! k = Some (CStr v) ∨ v ∈ r.
Proof.
  revert r d. induction names as [|n names IH]; intros r d; [by left |].
  destruct r as [|c r]; [by left |]. simpl. intros Hk.
  apply IH in Hk as [Hk|Hk]; [|by right; right].
  destruct (decide (Some n = k)) as [<-|Hne].
  - rewrite lookup_insert_eq in Hk. injection Hk as ->. right; left.
  - rewrite lookup_insert_ne in Hk by done. by left.
Qed.

Lemma foldl_pad_cell (l : list string) (d : gmap (option string) cell)
    (k : option string) (v : string) :
  foldl (fun d key => <[Some key := CNone]> d) d l !! k = Some (CStr v) →
  d !! k = Some (CStr v).
Proof.
  revert d. induction l as [|n l IH]; intros d; [done |]. simpl. intros Hk.
  apply IH in Hk. destruct (decide (Some n = k)) as [<-|Hne].
  - by rewrite lookup_insert_eq in Hk.
  - by rewrite lookup_insert_ne in Hk.
Qed.

Lemma DictReader_row_cell (names r : list string) (f v : string) :
  Csv.DictReader_row names r !! Some f = Some (CStr v) → v ∈ r.
Proof.
  unfold Csv.DictReader_row, Csv.dict_zip.
  destruct (length names <? length r)%nat.
  - rewrite lookup_insert_ne by done.
    intros [Hk|Hk]%foldl_zip_insert_cell; [by rewrite lookup_empty in Hk | done].
  - destruct (length r <? length names)%nat.
    + intros [Hk|Hk]%foldl_pad_cell%foldl_zip_insert_cell;
        [by rewrite lookup_empty in Hk | done].
    + intros [Hk|Hk]%foldl_zip_insert_cell;
        [by rewrite lookup_empty in Hk | done].
Qed.

(** C7: the reader's field names are the header tokens trimmed and
    lowercased; a load whose required fields all are the trimmed, lowercased
    form of some header token goes on to the rows, and one with a required
    field that is not raises the missing-headers error, the requested names
    being compared as they are; the string values of a row are cells of the
    parsed line, untouched; the header [ Email ] matches the requested field
    [email] and the value keeps its case. *)
Theorem header_matching_normalizes_header_side (csv : string)
    (raw : list string) (rest : stream (list string)) (fn opt : gset string) :
  Csv.reader (splitlines csv) = SCons raw rest →
  StrippedLowercaseFieldNamesDictReader.fieldnames
    (Csv.DictReader_init (splitlines csv))
  = Ok (map (fun h => lower (strip h)) raw, Csv.mkDictReader (Some raw) rest)
  ∧ ((∀ f, f ∈ fn ∖ opt → ∃ h, h ∈ raw ∧ lower (strip h) = f) →
     load_records_from_csv csv fn opt
     = load_rows fn (fn ∖ opt) 1
         (Csv.DictReader_rows (map (fun h => lower (strip h)) raw) rest) [])
  ∧ ((∃ f, f ∈ fn ∖ opt ∧ ∀ h, h ∈ raw → lower (strip h) ≠ f) →
     load_records_from_csv csv fn opt
     = Raise (ValidationError
                (missing_headers_message
                   ((fn ∖ opt)
                    ∖ list_to_set (map (fun h => lower (strip h)) raw)))))
  ∧ (∀ r f v,
       Csv.DictReader_row (map (fun h => lower (strip h)) raw) r !! Some f
         = Some (CStr v) → v ∈ r)
  ∧ load_records_from_csv (" Email " +:+ nl +:+ " Ann@X.org ") {[ "email" ]} ∅
    = Ok [ {[ "email" := "Ann@X.org" ]} ].
Proof.
  intros Hraw. split; [|split; [|split; [|split]]].
  - unfold StrippedLowercaseFieldNamesDictReader.fieldnames,
      Csv.DictReader_init, Csv.DictReader_fieldnames. simpl. by rewrite Hraw.
  - intros Hall. rewrite load_records_from_csv_eq, Hraw. simpl.
    case_bool_decide as Hmiss; [|done]. exfalso. apply Hmiss.
    apply set_eq. intros f. rewrite !elem_of_difference, elem_of_list_to_set.
    split; [|by intros ?%not_elem_of_empty].
    intros [[Hf Hopt] Hnot]. exfalso. apply Hnot.
    destruct (Hall f) as (h & Hh & <-); [by apply elem_of_difference |].
    apply list_elem_of_fmap. by exists h.
  - intros (f & Hf & Hnone). rewrite load_records_from_csv_eq, Hraw. simpl.
    case_bool_decide as Hmiss; [done |]. exfalso.
    assert (f ∈ (∅ : gset string)) as Hin; [|by apply not_elem_of_empty in Hin].
    rewrite <- Hmiss. apply elem_of_difference. split; [done |].
    rewrite elem_of_list_to_set. intros (h & Heq & Hh)%list_elem_of_fmap.
    by apply (Hnone h).
  - intros r f v. apply DictReader_row_cell.
  - vm_compute. reflexivity.
Qed.

Lemma header_matching_normalizes_header_side_witness :
  load_records_from_csv (" Email " +:+ nl +:+ " Ann@X.org ") {[ "email" ]} ∅
  = load_rows {[ "email" ]} ({[ "email" ]} ∖ ∅) 1
      (Csv.DictReader_rows (map (fun h => lower (strip h)) [" Email "])
         (SCons [" Ann@X.org "] SNil)) [].
Proof.
  refine (proj1 (proj2 (header_matching_normalizes_header_side
            (" Email " +:+ nl +:+ " Ann@X.org ") [" Email "]
            (SCons [" Ann@X.org "] SNil) {[ "email" ]} ∅ _)) _).
  - reflexivity.
  - intros f Hf. exists " Email ". split; [left |].
    apply elem_of_difference in Hf as [->%elem_of_singleton _]. reflexivity.
Defined.


(** ** Failures on rows *)

(** C4: with [phone] optional and the required [name] empty in the first
    row, the error names row 1 and lists both [name] and [phone] as required
    fields, although the required fields are [name] alone. *)
Theorem missing_data_message_lists_optional_fields :
  load_records_from_csv ("name,phone" +:+ nl +:+ ",5")
    {[ "name"; "phone" ]} {[ "phone" ]}
  = Raise (ValidationError
             "CSV is missing data at row #1. Required fields are [name, phone].")
  ∧ elements (({[ "name"; "phone" ]} : gset string) ∖ {[ "phone" ]}) = ["name"].
Proof. split; vm_compute; reflexivity. Qed.

(** C5: a row shorter than the header whose missing cell belongs to an
    optional requested field is not reported as a [ValidationError]: the
    load ends in an [AttributeError]. When the missing cell belongs to a
    column that was not requested the row is accepted. *)
Theorem short_row_raises_AttributeError :
  load_records_from_csv ("a,b" +:+ nl +:+ "1") {[ "a"; "b" ]} {[ "b" ]}
  = Raise AttributeError
  ∧ load_records_from_csv ("a,b" +:+ nl +:+ "1") {[ "a" ]} ∅
    = Ok [ {[ "a" := "1" ]} ].
Proof. split; vm_compute; reflexivity. Qed.

(** A required field whose value is only whitespace passes the check and
    comes back empty. *)
Lemma whitespace_only_required_value_accepted :
  load_records_from_csv ("name" +:+ nl +:+ "  ") {[ "name" ]} ∅
  = Ok [ {[ "name" := EmptyString ]} ].
Proof. vm_compute. reflexivity. Qed.

(** An optional field without a column is no key of the record. *)
Lemma optional_field_without_column_absent :
  ∃ record : gmap string string,
    load_records_from_csv ("name" +:+ nl +:+ "A") {[ "name"; "phone" ]}
      {[ "phone" ]} = Ok [record]
    ∧ "phone" ∈ ({[ "name"; "phone" ]} : gset string)
    ∧ record !! "phone" = None.
Proof.
  exists {[ "name" := "A" ]}. split; [vm_compute; reflexivity |].
  split; [| reflexivity].
  apply elem_of_union. right. by apply elem_of_singleton.
Qed.

(** A record with an empty value does not survive the round trip: the
    loader rejects the row. *)
Lemma round_trip_fails_on_empty_value :
  ∃ text,
    serialize_to_csv [ {[ "a" := PStr EmptyString ]} ] ["a"] true = Ok text
    ∧ load_records_from_csv text {[ "a" ]} ∅
      = Raise (ValidationError
                 "CSV is missing data at row #1. Required fields are [a].").
Proof.
  eexists. split; [vm_compute; reflexivity |]. vm_compute. reflexivity.
Qed.

(** ** Strings *)

Lemma append_nil_l (b : string) : EmptyString +:+ b = b.
Proof. reflexivity. Qed.

Lemma append_cons (x : ascii) (a b : string) :
  String x a +:+ b = String x (a +:+ b).
Proof. reflexivity. Qed.

Lemma append_assoc (a b c : string) : (a +:+ b) +:+ c = a +:+ (b +:+ c).
Proof.
  induction a as [|x a IH]; [done |]. rewrite !append_cons. by f_equal.
Qed.

Lemma append_nil_r (a : string) : a +:+ EmptyString = a.
Proof. induction a as [|x a IH]; [done |]. rewrite append_cons. by f_equal. Qed.

Lemma length_append (a b : string) :
  String.length (a +:+ b) = (String.length a + String.length b)%nat.
Proof.
  induction a as [|x a IH]; [done |]. rewrite append_cons. simpl. by f_equal.
Qed.

(** ** Decimal digits *)

Lemma pretty_N_go_length_ge (x : N) (s : string) :
  (String.length s ≤ String.length (pretty_N_go x s))%nat.
Proof.
  revert s. induction (N.lt_wf_0 x) as [x _ IH]; intros s.
  assert (x = 0 ∨ 0 < x)%N as [->|Hpos] by lia; [by rewrite pretty_N_go_0 |].
  rewrite pretty_N_go_step by done.
  etrans; [|by eapply IH, N.div_lt]. simpl. lia.
Qed.

Lemma pretty_N_go_length_lt (k : nat) (x : N) (s : string) :
  (x < 10 ^ N.of_nat k)%N →
  (String.length (pretty_N_go x s) ≤ k + String.length s)%nat.
Proof.
  revert x s. induction k as [|k IH]; intros x s Hx.
  - assert (x = 0%N) as -> by (simpl in Hx; lia). rewrite pretty_N_go_0. lia.
  - assert (x = 0 ∨ 0 < x)%N as [->|Hpos] by lia;
      [rewrite pretty_N_go_0; lia |].
    rewrite pretty_N_go_step by done.
    etrans; [apply IH | simpl; lia].
    apply N.Div0.div_lt_upper_bound.
    by rewrite Nat2N.inj_succ, N.pow_succ_r' in Hx.
Qed.

Lemma pretty_N_go_length_le (k : nat) (x : N) (s : string) :
  (10 ^ N.of_nat k ≤ x)%N →
  (S k + String.length s ≤ String.length (pretty_N_go x s))%nat.
Proof.
  revert x s. induction k as [|k IH]; intros x s Hx.
  - rewrite pretty_N_go_step by (simpl in Hx; lia).
    etrans; [|apply pretty_N_go_length_ge]. simpl. lia.
  - assert (0 < 10 ^ N.of_nat (S k))%N
      by (apply N.neq_0_lt_0, N.pow_nonzero; lia).
    rewrite pretty_N_go_step by lia.
    etrans; [|apply IH]; [simpl; lia |].
    apply N.div_le_lower_bound; [lia |].
    by rewrite Nat2N.inj_succ, N.pow_succ_r' in Hx.
Qed.

(** An [int] has more than [k] decimal digits exactly when its absolute
    value is [10 ^ k] or more. *)
Lemma pretty_digits (k : nat) (z : Z) :
  (0 < k)%nat →
  (k < String.length (pretty (Z.abs_N z)))%nat ↔ (10 ^ Z.of_nat k ≤ Z.abs z)%Z.
Proof.
  intros Hk.
  assert ((10 ^ Z.of_nat k ≤ Z.abs z)%Z ↔ (10 ^ N.of_nat k ≤ Z.abs_N z)%N)
    as ->.
  { rewrite <- (N2Z.inj_abs_N z), <- nat_N_Z.
    change 10%Z with (Z.of_N 10). rewrite <- N2Z.inj_pow. lia. }
  unfold pretty at 1, pretty_N. case_decide as Hz.
  - rewrite Hz. simpl.
    assert (0 < 10 ^ N.of_nat k)%N by (apply N.neq_0_lt_0, N.pow_nonzero; lia).
    lia.
  - split.
    + intros Hlen. apply N.le_ngt. intros Hlt%(pretty_N_go_length_lt k _ "").
      simpl in Hlt. lia.
    + intros Hle%(pretty_N_go_length_le k _ ""). simpl in Hle. lia.
Qed.

(** The limit of [str] on an [int] is a limit on its decimal digits. *)
Lemma int_max_str_digits_spec (z : Z) :
  (10 ^ int_max_str_digits <=? Z.abs z)%Z
  = (4300 <? N.of_nat (String.length (pretty (Z.abs_N z))))%N.
Proof.
  apply eq_true_iff_eq. rewrite Z.leb_le, N.ltb_lt.
  pose proof (pretty_digits (N.to_nat 4300) z) as Hdigits.
  rewrite <- nat_N_Z, N2Nat.id in Hdigits.
  change (Z.of_N 4300) with int_max_str_digits in Hdigits.
  rewrite <- Hdigits; lia.
Qed.

(** ** [serialize_to_csv]: the writer *)

Lemma special_false (c : ascii) :
  Csv.special c = false →
  Csv.is_newline c = false ∧ Ascii.eqb c Csv.delimiter = false
  ∧ Ascii.eqb c Csv.quotechar = false.
Proof.
  unfold Csv.special, Csv.is_newline.
  destruct (Ascii.eqb c Csv.delimiter), (Ascii.eqb c Csv.quotechar),
    (Ascii.eqb c CR), (Ascii.eqb c LF); simpl; intros; try done.
Qed.

Lemma want_quoted_eq (quoted : bool) (s : string) :
  Csv.want_quoted quoted s
  = quoted || negb (str_forall (fun c => negb (Csv.special c)) s).
Proof.
  revert quoted. induction s as [|c s IH]; intros quoted; simpl.
  - by rewrite orb_false_r.
  - rewrite IH. destruct quoted, (Csv.special c); simpl; try done.
Qed.

Lemma copy_field_plain (s : string) :
  str_forall (fun c => negb (Csv.special c)) s = true → Csv.copy_field s = s.
Proof.
  induction s as [|c s IH]; simpl; [done |].
  intros [Hc Hs]%andb_true_iff. apply negb_true_iff, special_false in Hc
    as (_ & _ & ->). by rewrite IH.
Qed.

(** The writer's tests on a character are those of the format. *)
Lemma special_needs_quotes (c : ascii) : Csv.special c = needs_quotes c.
Proof. by destruct c as [[] [] [] [] [] [] [] []]. Qed.

Lemma eqb_quotechar (c : ascii) :
  Ascii.eqb c Csv.quotechar = (N_of_ascii c =? 34)%N.
Proof. by destruct c as [[] [] [] [] [] [] [] []]. Qed.

Lemma copy_field_double_quotes (s : string) :
  Csv.copy_field s = double_quotes s.
Proof.
  induction s as [|c s IH]; simpl; [done |]. rewrite <- eqb_quotechar, IH.
  destruct (Ascii.eqb c Csv.quotechar) eqn:Hq; [|done].
  by apply Ascii.eqb_eq in Hq as ->.
Qed.

Lemma str_forall_special (s : string) :
  str_forall (fun c => negb (Csv.special c)) s
  = str_forall (fun c => negb (needs_quotes c)) s.
Proof.
  induction s as [|c s IH]; simpl; [done |].
  by rewrite IH, special_needs_quotes.
Qed.

(** What the writer puts for a cell is the cell as the format encodes
    it. *)
Lemma written_cell_encode_cell (s : string) : written_cell s = encode_cell s.
Proof.
  unfold written_cell, encode_cell. rewrite want_quoted_eq. simpl.
  rewrite <- str_forall_special.
  destruct (str_forall (fun c => negb (Csv.special c)) s) eqn:Hplain; simpl.
  - by rewrite append_nil_l, append_nil_r, copy_field_plain.
  - by rewrite copy_field_double_quotes.
Qed.

Lemma append_text_eq (self : Csv.WriterObj) (t : string) :
  append_text self t
  = Csv.mkWriter
      (Csv.rec self
       +:+ (if Nat.ltb 0 (Csv.num_fields self)
            then String Csv.delimiter EmptyString else EmptyString)
       +:+ written_cell t)
      (S (Csv.num_fields self)).
Proof. reflexivity. Qed.

(** The writer's step on a value is its step on the value's text, and
    fails where the value has none. *)
Lemma append_value_eq (self : Csv.WriterObj) (v : pyval) :
  Csv.append_value self v = t ← cell_text v; Ok (append_text self t).
Proof.
  destruct v as [s| [] |z|]; try reflexivity.
  unfold Csv.append_value, py_str, cell_text.
  rewrite int_max_str_digits_spec. by destruct (_ <? _)%N.
Qed.

Lemma foldlM_append_value (row : list pyval) (self : Csv.WriterObj) :
  foldlM Csv.append_value self row
  = ts ← row_texts row; Ok (foldl append_text self ts).
Proof.
  revert self. induction row as [|v row IH]; intros self; [done |].
  cbn [foldlM row_texts]. rewrite append_value_eq.
  destruct (cell_text v) as [t|e]; [|done]. simpl. rewrite IH.
  by destruct (row_texts row).
Qed.

Lemma csv_writerow_eq (row : list pyval) :
  Csv.csv_writerow row
  = ts ← row_texts row; Ok (Csv.rec (join_texts ts) +:+ crlf).
Proof.
  unfold Csv.csv_writerow. rewrite foldlM_append_value.
  by destruct (row_texts row).
Qed.

Lemma row_texts_Ok (row : list pyval) (ts : list string) :
  row_texts row = Ok ts ↔ Forall2 (fun v t => cell_text v = Ok t) row ts.
Proof.
  revert ts. induction row as [|v row IH]; intros ts; simpl.
  - split; [intros [= <-]; constructor | by intros ->%Forall2_nil_inv_l].
  - split.
    + destruct (cell_text v) as [t|e] eqn:Hv; [|done]. simpl.
      destruct (row_texts row) as [ts'|e] eqn:Hrow; [|done]. simpl.
      intros [= <-]. constructor; [done | by apply IH].
    + intros (t & ts' & Hv & Hrow%IH & ->)%Forall2_cons_inv_l.
      by rewrite Hv, Hrow.
Qed.

Lemma row_texts_item (fn : list string) (item : gmap string pyval)
    (ts : list string) :
  row_texts (Csv._dict_to_list fn item) = Ok ts ↔ item_texts fn item ts.
Proof.
  rewrite row_texts_Ok. unfold Csv._dict_to_list, item_texts.
  change (map ?f fn) with (f <$> fn). by rewrite Forall2_fmap_l.
Qed.

(** A value has no text exactly when it is an integer beyond the limit. *)
Lemma cell_text_Raise (v : pyval) (e : exn) :
  cell_text v = Raise e ↔
  e = ValueError ∧ ∃ z, v = PInt z ∧ (10 ^ int_max_str_digits ≤ Z.abs z)%Z.
Proof.
  destruct v as [s| [] |z|]; simpl;
    try (split; [done | by intros (_ & z' & ? & _)]).
  rewrite <- int_max_str_digits_spec.
  destruct (Z.leb_spec (10 ^ int_max_str_digits) (Z.abs z)) as [Hz|Hz].
  - split; [intros [= <-]; split; [done | by exists z] | by intros [-> _]].
  - split; [done |]. intros (_ & z' & [= <-] & Hz'). lia.
Qed.

(** The texts of a row fail exactly when one of its values has none. *)
Lemma row_texts_Raise (row : list pyval) (e : exn) :
  row_texts row = Raise e ↔
  e = ValueError ∧ ∃ v, v ∈ row ∧ cell_text v = Raise ValueError.
Proof.
  revert e. induction row as [|v row IH]; intros e; simpl.
  - split; [done |]. by intros (_ & v & Hv%elem_of_nil & _).
  - destruct (cell_text v) as [t|e'] eqn:Hv; simpl.
    + destruct (row_texts row) as [ts|e'] eqn:Hrow; simpl.
      * split; [done |]. intros (-> & v' & [->|Hv']%elem_of_cons & Hraise);
          [congruence |].
        assert (Ok ts = Raise ValueError) as Habs; [|done].
        apply IH. split; [done |]. by exists v'.
      * destruct (proj1 (IH e') eq_refl) as (-> & v' & Hv' & Hraise). split.
        -- intros [= <-]. split; [done |]. exists v'. split; [by right | done].
        -- by intros [-> _].
    + pose proof (proj1 (cell_text_Raise v e') Hv) as [-> _]. split.
      * intros [= <-]. split; [done |]. exists v. split; [by left | done].
      * by intros [-> _].
Qed.

(** The record buffer after texts were appended. *)
Lemma foldl_append_text_join (t : string) (ts : list string)
    (self : Csv.WriterObj) :
  Csv.rec (foldl append_text self (t :: ts))
  = Csv.rec self
    +:+ (if Nat.ltb 0 (Csv.num_fields self)
         then String Csv.delimiter EmptyString else EmptyString)
    +:+ String.concat "," (map encode_cell (t :: ts))
  ∧ Csv.num_fields (foldl append_text self (t :: ts))
    = (Csv.num_fields self + S (length ts))%nat.
Proof.
  revert t self. induction ts as [|t' ts IH]; intros t self.
  - cbn [foldl map]. rewrite append_text_eq, written_cell_encode_cell. simpl.
    split; [done | lia].
  - change (foldl append_text self (t :: t' :: ts))
      with (foldl append_text (append_text self t) (t' :: ts)).
    destruct (IH t' (append_text self t)) as [-> ->].
    rewrite append_text_eq, written_cell_encode_cell. simpl Csv.rec.
    simpl Csv.num_fields. split; [|simpl; lia].
    change (String.concat "," (map encode_cell (t :: t' :: ts)))
      with (encode_cell t
            +:+ "," +:+ String.concat "," (map encode_cell (t' :: ts))).
    by rewrite !append_assoc.
Qed.

(** The line the writer joins for a row is the encoded record. *)
Lemma join_texts_encode_record (ts : list string) :
  Csv.rec (join_texts ts) = encode_record ts.
Proof.
  unfold join_texts, Csv.join_finish. destruct ts as [|t ts]; [done |].
  destruct (foldl_append_text_join t ts Csv.join_reset) as [Hrec Hnum].
  remember (foldl append_text Csv.join_reset (t :: ts)) as w eqn:Hw.
  clear Hw. change (Csv.rec Csv.join_reset) with EmptyString in Hrec.
  change (Csv.num_fields Csv.join_reset) with 0%nat in Hrec, Hnum.
  change (0 <? 0)%nat with false in Hrec. cbv iota in Hrec.
  rewrite !append_nil_l in Hrec. rewrite Nat.add_0_l in Hnum.
  unfold encode_record.
  assert (Hbody : String.concat "," (map encode_cell (t :: ts)) = EmptyString
                  → ts = []).
  { destruct ts as [|t' ts]; [done |]. cbn [map String.concat].
    intros Hnil. apply (f_equal String.length) in Hnil.
    rewrite !length_append in Hnil. simpl in Hnil. lia. }
  destruct w as [r n]. cbn [Csv.rec Csv.num_fields] in Hrec, Hnum. subst r n.
  cbn [Csv.rec Csv.num_fields].
  change (0 <? S (length ts))%nat with true. cbn [andb].
  destruct (String.concat "," (map encode_cell (t :: ts))) as [|c body]
    eqn:Hjoin.
  - rewrite (Hbody eq_refl). reflexivity.
  - reflexivity.
Qed.

(** ** [serialize_to_csv]: the text *)

Lemma header_lookup (fn : list string) (d : gmap string pyval) (k : string) :
  k ∈ fn ∨ d !! k = Some (PStr k) →
  foldl (fun d kv => <[kv.1 := PStr kv.2]> d) d (zip fn fn) !! k
  = Some (PStr k).
Proof.
  revert d. induction fn as [|f fn IH]; intros d; simpl.
  - intros [Hk|Hk]; [inversion Hk | done].
  - intros Hk. apply IH. destruct (decide (k = f)) as [->|Hne].
    + right. apply lookup_insert_eq.
    + destruct Hk as [[->|Hk]%elem_of_cons|Hk]; [done | by left |].
      right. by rewrite lookup_insert_ne.
Qed.

(** The header row holds the field names themselves. *)
Lemma DictWriter_writeheader_eq (fn : list string) (outfile : string) :
  Csv.DictWriter_writeheader fn outfile
  = Ok (outfile +:+ encode_record fn +:+ crlf).
Proof.
  unfold Csv.DictWriter_writeheader, Csv.DictWriter_writerow.
  rewrite csv_writerow_eq.
  assert (row_texts
            (Csv._dict_to_list fn
               (foldl (fun d kv => <[kv.1 := PStr kv.2]> d) ∅ (zip fn fn)))
          = Ok fn) as ->.
  { apply row_texts_item. unfold item_texts.
    apply Forall_Forall2_diag, Forall_forall. intros f Hf.
    rewrite header_lookup; [done | by left]. }
  simpl. by rewrite join_texts_encode_record.
Qed.

Lemma foldlM_DictWriter_writerow (fn : list string) (outfile : string)
    (items : list (gmap string pyval)) :
  foldlM (Csv.DictWriter_writerow fn) outfile items
  = body ← rows_text fn items; Ok (outfile +:+ body).
Proof.
  revert outfile. induction items as [|item items IH]; intros outfile;
    cbn [foldlM rows_text].
  - simpl. by rewrite append_nil_r.
  - change (Csv.DictWriter_writerow fn outfile item)
      with (line ← Csv.csv_writerow (Csv._dict_to_list fn item);
            Ok (outfile +:+ line)).
    destruct (Csv.csv_writerow (Csv._dict_to_list fn item)) as [line|e];
      [|done]. simpl. rewrite IH.
    destruct (rows_text fn items) as [rest|e]; [|done]. simpl.
    by rewrite append_assoc.
Qed.

Lemma serialize_to_csv_eq (items : list (gmap string pyval)) (fn : list string)
    (include_headers : bool) :
  serialize_to_csv items fn include_headers
  = body ← rows_text fn items;
    Ok ((if include_headers then encode_record fn +:+ crlf else EmptyString)
        +:+ body).
Proof.
  unfold serialize_to_csv. destruct include_headers.
  - rewrite DictWriter_writeheader_eq. simpl.
    rewrite foldlM_DictWriter_writerow, append_nil_l. done.
  - simpl. by rewrite foldlM_DictWriter_writerow.
Qed.

(** When every value has a text, the lines are the encoded records. *)
Lemma rows_text_Ok (fn : list string) (items : list (gmap string pyval))
    (texts : list (list string)) :
  Forall2 (item_texts fn) items texts →
  rows_text fn items
  = Ok (foldr String.append EmptyString
          (map (fun ts => encode_record ts +:+ crlf) texts)).
Proof.
  induction 1 as [|item ts items texts Hitem _ IH]; [done |].
  cbn [rows_text map foldr]. rewrite csv_writerow_eq.
  apply row_texts_item in Hitem. rewrite Hitem, IH. simpl.
  by rewrite join_texts_encode_record, append_assoc.
Qed.

(** The lines only depend on the texts of the named fields. *)
Lemma rows_text_ext (fn : list string) (items items' : list (gmap string pyval)) :
  Forall2 (fun item item' : gmap string pyval =>
             ∀ f, f ∈ fn →
                  cell_text (default (PStr EmptyString) (item !! f))
                  = cell_text (default (PStr EmptyString) (item' !! f)))
    items items' →
  rows_text fn items = rows_text fn items'.
Proof.
  induction 1 as [|item item' items items' Hitem _ IH]; [done |].
  cbn [rows_text]. rewrite IH, !csv_writerow_eq.
  assert (row_texts (Csv._dict_to_list fn item)
          = row_texts (Csv._dict_to_list fn item')) as ->; [|done].
  unfold Csv._dict_to_list. clear -Hitem.
  induction fn as [|f fn IHfn]; [done |]. cbn [map row_texts].
  rewrite Hitem by left. rewrite IHfn; [done |].
  intros g Hg. apply Hitem. by right.
Qed.

Lemma rows_text_app (fn : list string) (items1 items2 : list (gmap string pyval)) :
  rows_text fn (items1 ++ items2)
  = text1 ← rows_text fn items1; text2 ← rows_text fn items2;
    Ok (text1 +:+ text2).
Proof.
  induction items1 as [|item items1 IH]; cbn [app rows_text].
  - simpl. by destruct (rows_text fn items2).
  - destruct (Csv.csv_writerow (Csv._dict_to_list fn item)) as [line|e];
      [|done]. simpl. rewrite IH.
    destruct (rows_text fn items1) as [t1|e]; [|done]. simpl.
    destruct (rows_text fn items2) as [t2|e]; [|done]. simpl.
    by rewrite append_assoc.
Qed.



(** ** Reading back what the writer wrote *)

Lemma process_chars_app (self : Csv.ReaderObj) (a b : string) :
  Csv.process_chars self (a +:+ b)
  = self' ← Csv.process_chars self a; Csv.process_chars self' b.
Proof.
  revert self. induction a as [|c a IH]; intros self; [done |].
  rewrite append_cons. simpl.
  destruct (Csv.parse_process_char self (Csv.Ch c)) as [self'|e]; simpl;
    [apply IH | done].
Qed.

Lemma parse_add_char_Ok (self : Csv.ReaderObj) (c : ascii) :
  (N.of_nat (String.length (Csv.field self)) < Csv.field_limit)%N →
  Csv.parse_add_char self c
  = Ok (Csv.mkReader (Csv.state self) (Csv.fields self)
          (Csv.field self +:+ String c EmptyString)).
Proof.
  intros Hlen. unfold Csv.parse_add_char, Csv.field_len.
  destruct (N.leb_spec Csv.field_limit
              (N.of_nat (String.length (Csv.field self)))); [lia | done].
Qed.

Lemma append_snoc (a : string) (c : ascii) (b : string) :
  (a +:+ String c EmptyString) +:+ b = a +:+ String c b.
Proof. by rewrite append_assoc. Qed.

(** Inside an unquoted cell plain characters pile up. *)
Lemma process_chars_in_field (s : string) (fs : list string) (fld : string) :
  str_forall (fun c => negb (Csv.special c)) s = true →
  (N.of_nat (String.length (fld +:+ s)) <= Csv.field_limit)%N →
  Csv.process_chars (Csv.mkReader Csv.IN_FIELD fs fld) s
  = Ok (Csv.mkReader Csv.IN_FIELD fs (fld +:+ s)).
Proof.
  revert fld. induction s as [|c s IH]; intros fld Hplain Hlen; simpl.
  - by rewrite append_nil_r.
  - simpl in Hplain. apply andb_true_iff in Hplain as [Hc Hs].
    apply negb_true_iff, special_false in Hc as (Hnl & Hdel & _).
    unfold Csv.parse_process_char. simpl. rewrite Hnl, Hdel.
    rewrite parse_add_char_Ok; simpl.
    + rewrite IH; [by rewrite append_snoc | done | by rewrite append_snoc].
    + rewrite length_append in Hlen. simpl in Hlen. lia.
Qed.

(** Inside a quoted cell everything piles up, a doubled quote as one. *)
Lemma process_chars_in_quoted_field (s : string) (fs : list string)
    (fld : string) :
  (N.of_nat (String.length (fld +:+ s)) <= Csv.field_limit)%N →
  Csv.process_chars (Csv.mkReader Csv.IN_QUOTED_FIELD fs fld) (Csv.copy_field s)
  = Ok (Csv.mkReader Csv.IN_QUOTED_FIELD fs (fld +:+ s)).
Proof.
  revert fld. induction s as [|c s IH]; intros fld Hlen; simpl.
  - by rewrite append_nil_r.
  - assert (Hfld : (N.of_nat (String.length fld) < Csv.field_limit)%N).
    { rewrite length_append in Hlen. simpl in Hlen. lia. }
    destruct (Ascii.eqb c Csv.quotechar) eqn:Hq; simpl.
    + unfold Csv.parse_process_char at 1, Csv.set_state. simpl. rewrite Hq.
      rewrite parse_add_char_Ok by done. simpl.
      rewrite IH; [by rewrite append_snoc | by rewrite append_snoc].
    + unfold Csv.parse_process_char at 1. simpl. rewrite Hq.
      rewrite parse_add_char_Ok by done. simpl.
      rewrite IH; [by rewrite append_snoc | by rewrite append_snoc].
Qed.

(** From the start of a cell, the written cell is read back as the cell. *)
Lemma process_chars_written_cell (self : Csv.ReaderObj) (s : string) :
  Csv.field self = EmptyString →
  Csv.state self = Csv.START_FIELD ∨ Csv.state self = Csv.START_RECORD →
  (N.of_nat (String.length s) <= Csv.field_limit)%N →
  ∃ self',
    Csv.process_chars self (written_cell s) = Ok self'
    ∧ Csv.fields self' = Csv.fields self
    ∧ Csv.field self' = s
    ∧ (Csv.state self' = Csv.IN_FIELD
       ∨ Csv.state self' = Csv.QUOTE_IN_QUOTED_FIELD
       ∨ (s = EmptyString ∧ self' = self)).
Proof.
  destruct self as [st fs fld]. simpl. intros -> Hst Hlen.
  unfold written_cell. rewrite want_quoted_eq. simpl.
  destruct (str_forall (fun c => negb (Csv.special c)) s) eqn:Hplain; simpl.
  - rewrite append_nil_r, copy_field_plain by done.
    destruct s as [|c s].
    + eexists. split; [done |]. simpl. repeat split. right; right. done.
    + simpl in Hplain. apply andb_true_iff in Hplain as [Hc Hs].
      apply negb_true_iff, special_false in Hc as (Hnl & Hdel & Hq).
      simpl.
      assert (Csv.parse_process_char (Csv.mkReader st fs EmptyString) (Csv.Ch c)
              = Ok (Csv.mkReader Csv.IN_FIELD fs (String c EmptyString)))
        as ->.
      { unfold Csv.parse_process_char, Csv.start_field. simpl.
        destruct Hst as [-> | ->]; simpl; rewrite Hnl, Hq, Hdel;
          reflexivity. }
      simpl. rewrite process_chars_in_field; [| done | done].
      eexists. split; [done |]. simpl. repeat split. by left.
  - rewrite append_nil_l.
    assert (Csv.parse_process_char (Csv.mkReader st fs EmptyString)
              (Csv.Ch Csv.quotechar)
            = Ok (Csv.mkReader Csv.IN_QUOTED_FIELD fs EmptyString)) as ->.
    { unfold Csv.parse_process_char, Csv.start_field.
      destruct Hst as [-> | ->]; done. }
    simpl. rewrite process_chars_app.
    rewrite process_chars_in_quoted_field by done. simpl.
    eexists. split; [done |]. simpl. repeat split. right; left. done.
Qed.

Lemma process_comma (self : Csv.ReaderObj) (line_so_far : string) :
  at_cell_end self line_so_far →
  Csv.parse_process_char self (Csv.Ch Csv.delimiter)
  = Ok (Csv.mkReader Csv.START_FIELD
          (Csv.fields self ++ [Csv.field self]) EmptyString).
Proof.
  destruct self as [st fs fld]. unfold at_cell_end, Csv.parse_process_char.
  simpl. intros [-> | [-> | [-> [-> | [-> _]]]]]; reflexivity.
Qed.

Lemma process_EOL (self : Csv.ReaderObj) (line_so_far : string) :
  at_cell_end self line_so_far → line_so_far ≠ EmptyString →
  Csv.parse_process_char self Csv.EOL
  = Ok (Csv.mkReader Csv.START_RECORD
          (Csv.fields self ++ [Csv.field self]) EmptyString).
Proof.
  destruct self as [st fs fld]. unfold at_cell_end, Csv.parse_process_char.
  simpl. intros [-> | [-> | [-> [-> | [-> Hline]]]]] Hne; try reflexivity.
  done.
Qed.

(** The joined texts of a row, read from the start of a record, leave the
    parser at the end of the last cell with the earlier cells saved. *)
Lemma process_chars_joined (ts : list string) :
  ts ≠ [] → Forall fits_field ts →
  ∃ self,
    Csv.process_chars Csv.parse_reset
      (Csv.rec (foldl append_text Csv.join_reset ts)) = Ok self
    ∧ (Csv.fields self ++ [Csv.field self])%list = ts
    ∧ at_cell_end self (Csv.rec (foldl append_text Csv.join_reset ts))
    ∧ Csv.num_fields (foldl append_text Csv.join_reset ts) = length ts
    ∧ (Csv.rec (foldl append_text Csv.join_reset ts) = EmptyString →
       length ts = 1%nat).
Proof.
  induction ts as [|v row IH] using rev_ind; [done |].
  intros _ [Hrow Hv%Forall_inv]%Forall_app. unfold fits_field in Hv.
  rewrite foldl_app. cbn [foldl]. rewrite append_text_eq, length_app.
  simpl. destruct row as [|u row'].
  - simpl. rewrite !append_nil_l.
    destruct (process_chars_written_cell Csv.parse_reset v)
      as (self & Hrun & Hfs & Hfld & Hst); [done | by right | done |].
    exists self. split; [done |]. simpl in Hfs. rewrite Hfs, Hfld.
    split; [done |]. split; [|done].
    destruct Hst as [Hst | [Hst | [Hempty ->]]];
      [by left | by right; left |].
    right; right. split; [done |]. right. split; [done |].
    rewrite Hempty. reflexivity.
  - destruct IH as (self & Hrun & Hcells & Hend & Hnum & _); [done | done |].
    set (w := foldl append_text Csv.join_reset (u :: row')) in *.
    rewrite Hnum. simpl Nat.ltb. cbv iota.
    rewrite process_chars_app, Hrun. simpl.
    rewrite append_cons, append_nil_l. simpl.
    rewrite (process_comma self (Csv.rec w)) by done. simpl.
    destruct (process_chars_written_cell
                (Csv.mkReader Csv.START_FIELD
                   (Csv.fields self ++ [Csv.field self]) EmptyString) v)
      as (self' & Hrun' & Hfs & Hfld & Hst); [done | by left | done |].
    exists self'. split; [done |]. simpl in Hfs. rewrite Hfs, Hfld, Hcells.
    split; [done |]. split.
    + destruct Hst as [Hst | [Hst | [Hempty ->]]];
        [by left | by right; left |].
      right; right. split; [done |]. by left.
    + split; [simpl; lia |]. intros Hnil.
      apply (f_equal String.length) in Hnil.
      rewrite length_append in Hnil. simpl in Hnil. lia.
Qed.

(** Read back, the line written for a row is the row's texts. *)
Lemma process_line_join_texts (ts : list string) :
  ts ≠ [] → Forall fits_field ts →
  Csv.process_line Csv.parse_reset (Csv.rec (join_texts ts))
  = Ok (Csv.mkReader Csv.START_RECORD ts EmptyString).
Proof.
  intros Hne Hfits.
  destruct (process_chars_joined ts Hne Hfits)
    as (self & Hrun & Hcells & Hend & Hnum & Hone).
  unfold join_texts, Csv.join_finish. rewrite Hnum.
  destruct (Nat.ltb_spec 0 (length ts)) as [_|Hlen];
    [|destruct ts; [done | simpl in Hlen; lia]].
  simpl andb.
  destruct (Csv.rec (foldl append_text Csv.join_reset ts)) as [|c r] eqn:Hrec.
  - simpl. rewrite (Hone eq_refl). simpl in Hrun. injection Hrun as <-.
    simpl in Hcells. rewrite <- Hcells. reflexivity.
  - simpl. unfold Csv.process_line. rewrite Hrec, Hrun. simpl.
    rewrite (process_EOL self _ Hend) by done. by rewrite Hcells.
Qed.

(** Lines that each hold one encoded record are read one by one, each as
    the texts it encodes. *)
Lemma reader_written_lines (rows : list (list string)) :
  Forall (fun ts => ts ≠ [] ∧ Forall fits_field ts) rows →
  Csv.reader (map encode_record rows) = stream_of_list rows.
Proof.
  unfold Csv.reader. induction 1 as [|ts rows [Hne Hfits] _ IH]; [done |].
  simpl. rewrite <- join_texts_encode_record.
  rewrite process_line_join_texts by done. simpl. by rewrite IH.
Qed.

(** ** Lines of the written text *)

Local Abbreviation unbroken := (str_forall (fun c => negb (is_linebreak c))).

Lemma str_forall_append (P : ascii → bool) (a b : string) :
  str_forall P (a +:+ b) = str_forall P a && str_forall P b.
Proof.
  induction a as [|c a IH]; [done |]. rewrite append_cons. simpl.
  by rewrite IH, andb_assoc.
Qed.

Lemma str_forall_copy_field (P : ascii → bool) (s : string) :
  P Csv.quotechar = true → str_forall P (Csv.copy_field s) = str_forall P s.
Proof.
  intros Hq. induction s as [|c s IH]; simpl; [done |].
  destruct (Ascii.eqb c Csv.quotechar); simpl; by rewrite ?Hq, IH.
Qed.

Lemma written_cell_unbroken (s : string) :
  unbroken s = true → unbroken (written_cell s) = true.
Proof.
  intros Hs. unfold written_cell.
  rewrite !str_forall_append, str_forall_copy_field, Hs by done.
  by destruct (Csv.want_quoted false s).
Qed.

Lemma concat_unbroken (l : list string) :
  Forall (fun s => unbroken s = true) l →
  unbroken (String.concat "," l) = true.
Proof.
  induction 1 as [|s l Hs Hl IH]; [done |]. destruct l as [|s' l]; [done |].
  change (String.concat "," (s :: s' :: l))
    with (s +:+ "," +:+ String.concat "," (s' :: l)).
  by rewrite !str_forall_append, Hs, IH.
Qed.

Lemma encode_record_unbroken (ts : list string) :
  Forall (fun t => unbroken t = true) ts →
  unbroken (encode_record ts) = true.
Proof.
  intros Hts. unfold encode_record. destruct ts as [|t ts]; [done |].
  assert (unbroken (String.concat "," (map encode_cell (t :: ts))) = true)
    as Hbody.
  { apply concat_unbroken, Forall_forall.
    intros s (t' & -> & Ht')%list_elem_of_fmap.
    rewrite <- written_cell_encode_cell. apply written_cell_unbroken.
    rewrite Forall_forall in Hts. by apply Hts. }
  by destruct (String.concat "," (map encode_cell (t :: ts))).
Qed.

Lemma splitlines_line (s rest : string) :
  unbroken s = true →
  splitlines (s +:+ crlf +:+ rest) = s :: splitlines rest.
Proof.
  induction s as [|c s IH]; [done |].
  intros [Hc Hs]%andb_true_iff. apply negb_true_iff in Hc.
  rewrite append_cons. cbn [splitlines]. by rewrite Hc, IH.
Qed.

Lemma splitlines_lines (lines : list string) :
  Forall (fun s => unbroken s = true) lines →
  splitlines (foldr String.append EmptyString
                (map (fun s => s +:+ crlf) lines)) = lines.
Proof.
  induction 1 as [|s lines Hs _ IH]; [done |].
  cbn [map foldr]. rewrite append_assoc, splitlines_line by done.
  by rewrite IH.
Qed.

(** ** Round trip *)

Lemma dict_zip_lookup (fn : list string) (g : string → string)
    (d : gmap (option string) cell) (k : option string) :
  foldl (fun d kv => <[Some kv.1 := CStr kv.2]> d) d (zip fn (map g fn)) !! k
  = match k with
    | Some f => if decide (f ∈ fn) then Some (CStr (g f)) else d !! k
    | None => d !! k
    end.
Proof.
  revert d. induction fn as [|n fn IH]; intros d.
  - simpl. by destruct k.
  - cbn [map zip_with foldl fst snd]. rewrite IH.
    destruct k as [f|]; [|by rewrite lookup_insert_ne].
    destruct (decide (f ∈ fn)) as [Hin|Hnot].
    + by rewrite decide_True by (by right).
    + destruct (decide (f = n)) as [->|Hne].
      * rewrite lookup_insert_eq. by rewrite decide_True by left.
      * rewrite lookup_insert_ne by congruence.
        rewrite decide_False; [done |].
        by intros [->|?]%elem_of_cons.
Qed.

Lemma DictReader_row_lookup (fn : list string) (g : string → string)
    (k : option string) :
  Csv.DictReader_row fn (map g fn) !! k
  = match k with
    | Some f => if decide (f ∈ fn) then Some (CStr (g f)) else None
    | None => None
    end.
Proof.
  unfold Csv.DictReader_row, Csv.dict_zip. rewrite length_map, Nat.ltb_irrefl.
  rewrite dict_zip_lookup. by destruct k.
Qed.

(** The loop accepts every row whose requested cells are non-empty strings,
    and stores them trimmed. *)
Lemma load_rows_text_rows (fn : list string) (g : list (string → string))
    (n : nat) (acc : list (gmap string string)) :
  fn ≠ [] →
  Forall (fun g => Forall (fun f => g f ≠ EmptyString) fn) g →
  ∃ records,
    load_rows (list_to_set fn) (list_to_set fn ∖ ∅) n
      (Csv.DictReader_rows fn (stream_of_list (map (fun g => map g fn) g))) acc
    = Ok (acc ++ records)%list
    ∧ Forall2 (fun g (record : gmap string string) =>
                 ∀ f, record !! f
                      = if decide (f ∈ fn) then Some (strip (g f)) else None)
        g records.
Proof.
  intros Hfn Hg. revert n acc.
  induction Hg as [|g1 g Hg1 _ IH]; intros n acc.
  - exists []. by rewrite app_nil_r.
  - cbn [map stream_of_list Csv.DictReader_rows].
    destruct (map g1 fn) as [|c cs] eqn:Hrow; [by destruct fn |].
    rewrite <- Hrow. clear c cs Hrow. cbn [load_rows].
    set (row := Csv.DictReader_row fn (map g1 fn)).
    assert (Hrow : ∀ k, row !! k
              = match k with
                | Some f => if decide (f ∈ fn) then Some (CStr (g1 f)) else None
                | None => None
                end) by apply DictReader_row_lookup.
    assert (Hbad : row_lacks_data row (list_to_set fn ∖ ∅) = Ok false).
    { unfold row_lacks_data. rewrite Hrow.
      rewrite bool_decide_eq_false_2 by (by intros [? ?]).
      assert (all_required row (elements ((list_to_set fn : gset string) ∖ ∅))
              = Ok true) as ->; [|done].
      apply all_required_true. intros f Hf%elem_of_elements.
      apply elem_of_difference in Hf as [Hf%elem_of_list_to_set _].
      exists (CStr (g1 f)). rewrite Hrow, decide_True by done.
      split; [done |]. rewrite Forall_forall in Hg1.
      specialize (Hg1 f Hf). simpl. by destruct (g1 f). }
    rewrite Hbad. simpl.
    destruct (strip_items_total (list_to_set fn) (map_to_list row) ∅)
      as [record Hrec].
    { intros f v Hin%elem_of_map_to_list Hf. rewrite Hrow in Hin.
      destruct (decide (f ∈ fn)); [|done]. injection Hin as <-. by eexists. }
    rewrite Hrec. simpl.
    destruct (IH (S n) (acc ++ [record])%list) as (records & -> & Hrecords).
    exists (record :: records). split; [by rewrite <- app_assoc |].
    constructor; [|done].
    destruct (strip_row_spec _ _ _ Hrec) as [Hkept Hdropped]. intros f.
    destruct (decide (f ∈ fn)) as [Hf|Hf].
    + destruct (Hkept f (CStr (g1 f))) as (s & [= <-] & ->);
        [by rewrite Hrow, decide_True | by apply elem_of_list_to_set | done].
    + apply Hdropped. left. by rewrite elem_of_list_to_set.
Qed.

(** The text written for items whose values all have a text, header
    included, and what the reader makes of its lines. *)
Lemma serialize_to_csv_read_back (items : list (gmap string pyval))
    (fn : list string) (texts : list (list string)) :
  fn ≠ [] →
  Forall (fun f => line_safe f = true) fn →
  Forall2 (item_texts fn) items texts →
  Forall (Forall (fun t => line_safe t = true)) texts →
  ∃ text,
    serialize_to_csv items fn true = Ok text
    ∧ Csv.reader (splitlines text) = SCons fn (stream_of_list texts).
Proof.
  intros Hfn Hnames Htexts Hsafe.
  assert (Hrows : Forall (Forall (fun t => line_safe t = true)) (fn :: texts))
    by (by constructor).
  exists (foldr String.append EmptyString
            (map (fun s => s +:+ crlf) (map encode_record (fn :: texts)))).
  split.
  { rewrite serialize_to_csv_eq, (rows_text_Ok fn items texts) by done.
    cbn [map foldr]. by rewrite map_map. }
  rewrite splitlines_lines, reader_written_lines; [done | |].
  - apply Forall_forall. intros ts Hts. rewrite Forall_forall in Hrows.
    specialize (Hrows ts Hts). split.
    + apply elem_of_cons in Hts as [->|Hts]; [done |].
      intros ->. assert (Hlen : length fn = 0%nat); [|by destruct fn].
      clear -Htexts Hts. revert Hts.
      induction Htexts as [|item ts items texts Hitem _ IH]; [by inversion 1 |].
      intros [<-|Hts]%elem_of_cons; [|by apply IH].
      by apply Forall2_length in Hitem.
    + eapply Forall_impl; [exact Hrows |]. intros t Ht. unfold fits_field.
      unfold line_safe in Ht. apply andb_true_iff in Ht as [_ Ht].
      by apply N.leb_le in Ht.
  - apply Forall_forall. intros s (ts & -> & Hts)%list_elem_of_fmap.
    apply encode_record_unbroken. rewrite Forall_forall in Hrows.
    eapply Forall_impl; [exact (Hrows ts Hts) |].
    intros t Ht. unfold line_safe in Ht.
    by apply andb_true_iff in Ht as [? _].
Qed.

(** C8, as the code has it: for field names that are not empty as a list,
    already trimmed and lowercase, and items whose value for every field
    has a text (a string, a boolean, [None], an integer of at most 4300
    digits) that is not empty, with all these texts free of line breaks and
    within the reader's field size limit, the items are serialized (headers
    included) without an exception, and loading the text with the same
    fields returns one record per item, in order, holding for every field
    the trimmed text of the item's value, a boolean as [True] or [False],
    and nothing else. *)
Theorem serialize_load_round_trip (items : list (gmap string pyval))
    (fn : list string) :
  fn ≠ [] →
  Forall (fun f => lower (strip f) = f ∧ line_safe f = true) fn →
  Forall (fun item : gmap string pyval =>
            Forall (fun f =>
                      ∃ t, cell_text (default (PStr EmptyString) (item !! f))
                           = Ok t
                           ∧ t ≠ EmptyString ∧ line_safe t = true) fn)
    items →
  ∃ text records,
    serialize_to_csv items fn true = Ok text
    ∧ load_records_from_csv text (list_to_set fn) ∅ = Ok records
    ∧ Forall2 (fun (item : gmap string pyval) (record : gmap string string) =>
                 (∀ f, f ∈ fn →
                       ∃ t, cell_text (default (PStr EmptyString) (item !! f))
                            = Ok t
                            ∧ record !! f = Some (strip t))
                 ∧ (∀ f, f ∉ fn → record !! f = None))
        items records.
Proof.
  intros Hfn Hnames Hitems.
  set (text := fun (item : gmap string pyval) (f : string) =>
                 match cell_text (default (PStr EmptyString) (item !! f)) with
                 | Ok t => t
                 | Raise _ => EmptyString
                 end).
  assert (Htext : ∀ item f, item ∈ items → f ∈ fn →
            cell_text (default (PStr EmptyString) (item !! f))
            = Ok (text item f)
            ∧ text item f ≠ EmptyString ∧ line_safe (text item f) = true).
  { intros item f Hitem Hf. rewrite Forall_forall in Hitems.
    specialize (Hitems item Hitem). rewrite Forall_forall in Hitems.
    destruct (Hitems f Hf) as (t & Ht & Hne & Hsafe). unfold text.
    by rewrite Ht. }
  destruct (serialize_to_csv_read_back items fn
              (map (fun item => map (text item) fn) items))
    as (csv & Hcsv & Hreader); [done | | | |].
  { eapply Forall_impl; [exact Hnames |]. by intros f [_ ?]. }
  { apply Forall2_fmap_r, Forall_Forall2_diag, Forall_forall.
    intros item Hitem. unfold item_texts.
    apply Forall2_fmap_r, Forall_Forall2_diag, Forall_forall.
    intros f Hf. by apply Htext. }
  { apply Forall_forall. intros ts (item & -> & Hitem)%list_elem_of_fmap.
    apply Forall_forall. intros t (f & -> & Hf)%list_elem_of_fmap.
    by apply Htext. }
  assert (Hnorm : map (fun h => lower (strip h)) fn = fn).
  { clear -Hnames. induction Hnames as [|f fn [Hf _] _ IH]; [done |].
    simpl. by rewrite Hf, IH. }
  exists csv. 
  destruct (load_rows_text_rows fn (map text items) 1 [])
    as (records & Hrun & Hrec); [done | |].
  { apply Forall_forall. intros g (item & -> & Hitem)%list_elem_of_fmap.
    apply Forall_forall. intros f Hf. by apply Htext. }
  rewrite map_map in Hrun. exists records. split; [exact Hcsv |]. split.
  - rewrite load_records_from_csv_eq, Hreader. cbn zeta. rewrite Hnorm.
    rewrite bool_decide_eq_false_2; [exact Hrun |].
    intros Hne. apply Hne. apply set_eq. intros f.
    rewrite !elem_of_difference. split; [by intros [[? _] ?] |].
    by intros ?%not_elem_of_empty.
  - apply Forall2_fmap_l in Hrec.
    apply Forall2_same_length_lookup. split; [by eapply Forall2_length |].
    intros i item record Hi Hr.
    pose proof (Forall2_lookup_lr _ _ _ _ _ _ Hrec Hi Hr) as Hrecord.
    simpl in Hrecord. apply list_elem_of_lookup_2 in Hi. split.
    + intros f Hf. exists (text item f). split; [by apply Htext |].
      by rewrite Hrecord, decide_True.
    + intros f Hf. by rewrite Hrecord, decide_False.
Qed.

(** ** The theorems at work on concrete inputs *)

Lemma load_records_from_csv_required_witness :
  load_records_from_csv ("name,age" +:+ nl +:+ "Ann, 31") {[ "name"; "age" ]} ∅
  = Ok [ {[ "name" := "Ann"; "age" := "31" ]} ]
  ∧ ∃ raw rest,
      Csv.reader (splitlines ("name,age" +:+ nl +:+ "Ann, 31")) = SCons raw rest
      ∧ (∀ f, f ∈ ({[ "name"; "age" ]} : gset string) ∖ ∅ →
              ∃ h, h ∈ raw ∧ lower (strip h) = f)
      ∧ Forall2
          (fun row (record : gmap string string) =>
             ∀ f, f ∈ ({[ "name"; "age" ]} : gset string) ∖ ∅ →
                  ∃ v, row !! Some f = Some (CStr v) ∧ v ≠ EmptyString
                       ∧ record !! f = Some (strip v))
          (stream_items
             (Csv.DictReader_rows (map (fun h => lower (strip h)) raw) rest))
          [ {[ "name" := "Ann"; "age" := "31" ]} ].
Proof.
  assert (Hload :
    load_records_from_csv ("name,age" +:+ nl +:+ "Ann, 31") {[ "name"; "age" ]} ∅
    = Ok [ {[ "name" := "Ann"; "age" := "31" ]} ]) by (vm_compute; reflexivity).
  split; [exact Hload |].
  exact (load_records_from_csv_required _ _ _ _ Hload).
Defined.

Lemma load_records_from_csv_keys_witness :
  load_records_from_csv ("Name,Age,Extra" +:+ nl +:+ "Ann, 31,x")
    {[ "name"; "age"; "phone" ]} {[ "phone" ]}
  = Ok [ {[ "name" := "Ann"; "age" := "31" ]} ]
  ∧ ∃ raw rest,
      Csv.reader (splitlines ("Name,Age,Extra" +:+ nl +:+ "Ann, 31,x"))
      = SCons raw rest
      ∧ Forall
          (fun record : gmap string string =>
             (∀ f, is_Some (record !! f) ↔
                   f ∈ ({[ "name"; "age"; "phone" ]} : gset string)
                   ∧ f ∈ map (fun h => lower (strip h)) raw)
             ∧ (∀ f, f ∈ ({[ "name"; "age"; "phone" ]} : gset string)
                         ∖ {[ "phone" ]} → is_Some (record !! f))
             ∧ (∀ f v, record !! f = Some v → strip v = v))
          [ {[ "name" := "Ann"; "age" := "31" ]} ].
Proof.
  assert (Hload :
    load_records_from_csv ("Name,Age,Extra" +:+ nl +:+ "Ann, 31,x")
      {[ "name"; "age"; "phone" ]} {[ "phone" ]}
    = Ok [ {[ "name" := "Ann"; "age" := "31" ]} ]) by (vm_compute; reflexivity).
  split; [exact Hload |].
  exact (load_records_from_csv_keys _ _ _ _ Hload).
Defined.

Lemma serialize_load_round_trip_witness :
  ∃ text records,
    serialize_to_csv
      [ {[ "name" := PStr " Ann, B "; "active" := PBool true ]};
        {[ "name" := PStr "Bob"; "active" := PBool false;
           "extra" := PInt 3 ]} ]
      ["name"; "active"] true
    = Ok text
    ∧ load_records_from_csv text (list_to_set ["name"; "active"]) ∅
      = Ok records
    ∧ Forall2
        (fun (item : gmap string pyval) (record : gmap string string) =>
           (∀ f, f ∈ ["name"; "active"] →
                 ∃ t, cell_text (default (PStr EmptyString) (item !! f)) = Ok t
                      ∧ record !! f = Some (strip t))
           ∧ (∀ f, f ∉ ["name"; "active"] → record !! f = None))
        [ {[ "name" := PStr " Ann, B "; "active" := PBool true ]};
          {[ "name" := PStr "Bob"; "active" := PBool false;
             "extra" := PInt 3 ]} ]
        records.
Proof.
  apply (serialize_load_round_trip
           [ {[ "name" := PStr " Ann, B "; "active" := PBool true ]};
             {[ "name" := PStr "Bob"; "active" := PBool false;
                "extra" := PInt 3 ]} ]
           ["name"; "active"]).
  - discriminate.
  - repeat constructor.
  - repeat (apply List.Forall_cons || apply List.Forall_nil).
    + exists " Ann, B ". split; [vm_compute; reflexivity |].
      split; [discriminate | vm_compute; reflexivity].
    + exists "True". split; [vm_compute; reflexivity |].
      split; [discriminate | vm_compute; reflexivity].
    + exists "Bob". split; [vm_compute; reflexivity |].
      split; [discriminate | vm_compute; reflexivity].
    + exists "False". split; [vm_compute; reflexivity |].
      split; [discriminate | vm_compute; reflexivity].
Defined.


(** * Further properties *)

(** ** Organizations and permissions *)

Section OrganizationProperties.

Context {User Group Organization : Type}.
Context `{Countable Organization}.
Variable groups_all : User -> list Group.
Variable group_id : Group -> Z.
Variable OrganizationGroup_objects : gmap Z Organization.

Lemma elem_of_foldl_add_organization (groups : list Group)
    (acc : gset Organization) (o : Organization) :
  o ∈ foldl (add_organization group_id OrganizationGroup_objects) acc groups ↔
  o ∈ acc ∨
  ∃ group, group ∈ groups
           ∧ OrganizationGroup_objects !! group_id group = Some o.
Proof.
  revert acc. induction groups as [|g l IH]; intros acc; simpl.
  - split; [by left | intros [?|(? & Hin & _)]; [done | inversion Hin]].
  - rewrite IH. unfold add_organization.
    destruct (OrganizationGroup_objects !! group_id g) as [q|] eqn:Hg.
    + rewrite elem_of_union, elem_of_singleton. split.
      * intros [[?| ->]|(x & ? & ?)]; [by left | right | right].
        -- exists g. split; [left | done].
        -- exists x. split; [by right | done].
      * intros [?|(x & Hin & Hx)]; [by left; left |].
        apply elem_of_cons in Hin as [->|?].
        -- left; right. congruence.
        -- right. by exists x.
    + split.
      * intros [?|(x & ? & ?)]; [by left | right].
        exists x. split; [by right | done].
      * intros [?|(x & Hin & Hx)]; [by left |].
        apply elem_of_cons in Hin as [->|?]; [congruence |].
        right. by exists x.
Qed.

(** X1: the organizations of a user are exactly the organizations of the
    user's groups that have an [OrganizationGroup] row; a group without one
    adds nothing. *)
Theorem get_user_organizations_spec (user : User) (o : Organization) :
  o ∈ get_user_organizations groups_all group_id OrganizationGroup_objects user
  ↔ ∃ group, group ∈ groups_all user
             ∧ OrganizationGroup_objects !! group_id group = Some o.
Proof.
  unfold get_user_organizations. rewrite elem_of_foldl_add_organization.
  split; [|by right]. intros [Hin|?]; [|done].
  by apply not_elem_of_empty in Hin.
Qed.

End OrganizationProperties.

Section PermissionExtras.

Context {User Organization APIPermission : Type}.
Context `{Countable APIPermission}.
Variable get_perms : User -> @obj Organization -> list string.
Variable get_all_permissions : User -> gset string.
Variable DB_TO_API_PERMISSION_MAPPING : gmap string APIPermission.
Variable ENROLLMENT_PERMISSIONS_LIST : list APIPermission.

Local Abbreviation resolve :=
  (get_user_api_permissions get_perms get_all_permissions
     DB_TO_API_PERMISSION_MAPPING).
Local Abbreviation effective :=
  (get_effective_user_program_api_permissions get_perms get_all_permissions
     DB_TO_API_PERMISSION_MAPPING ENROLLMENT_PERMISSIONS_LIST).

Lemma elem_of_get_user_api_permissions (user : User) (o : option obj)
    (p : APIPermission) :
  p ∈ resolve user o ↔
  ∃ db_perm,
    db_perm ∈ ((match o with
                | Some o => get_perms user o
                | None => []
                end) ++ elements (get_all_permissions user))%list
    ∧ DB_TO_API_PERMISSION_MAPPING !! db_perm = Some p.
Proof.
  unfold get_user_api_permissions.
  rewrite elem_of_foldl_add_api_permission. split; [|by right].
  intros [Hin|?]; [by apply not_elem_of_empty in Hin | done].
Qed.

(** X2: what a user is granted globally is granted on every object: the
    permissions resolved without an object are among those resolved on any
    object. *)
Theorem get_user_api_permissions_global_included (user : User)
    (o : option obj) :
  resolve user None ⊆ resolve user o.
Proof.
  intros p (db & Hin & Hdb)%elem_of_get_user_api_permissions.
  apply elem_of_get_user_api_permissions. exists db. split; [|done].
  apply elem_of_app. right. by destruct o.
Qed.

(** X4: on a program without enrollments no enrollment permission is
    effective, whatever the user was granted. *)
Theorem effective_permissions_exclude_enrollment (user : User)
    (program : Program) (p : APIPermission) :
  is_enrollment_enabled program = false →
  p ∈ ENROLLMENT_PERMISSIONS_LIST →
  p ∉ effective user program.
Proof.
  intros Hoff Hp. unfold get_effective_user_program_api_permissions,
    _remove_permissions_if_enrollments_disabled. rewrite Hoff. simpl.
  rewrite elem_of_difference, elem_of_list_to_set. by intros [_ ?].
Qed.

(** X5: the effective permissions never exceed what the two resolver calls
    grant, and so lie in the range of the mapping table, enrollments enabled
    or not. *)
Theorem effective_permissions_bounded (user : User) (program : Program) :
  effective user program
  ⊆ resolve user (Some (ProgramObj program))
    ∪ resolve user (OrganizationObj <$> managing_organization program)
  ∧ effective user program ⊆ map_img DB_TO_API_PERMISSION_MAPPING.
Proof.
  assert (Hsub : effective user program
            ⊆ resolve user (Some (ProgramObj program))
              ∪ resolve user (OrganizationObj <$> managing_organization program)).
  { unfold get_effective_user_program_api_permissions,
      _remove_permissions_if_enrollments_disabled.
    destruct (is_enrollment_enabled program); simpl; [done |].
    intros p. rewrite elem_of_difference. by intros [? _]. }
  split; [done |]. intros p Hp. apply Hsub in Hp.
  apply elem_of_union in Hp
    as [(db & _ & Hdb)%elem_of_get_user_api_permissions
       |(db & _ & Hdb)%elem_of_get_user_api_permissions];
    apply elem_of_map_img; by exists db.
Qed.

(** X6: for a program without a managing organization the effective
    permissions are those resolved on the program itself, filtered. *)
Theorem effective_permissions_without_organization (user : User)
    (program : Program) :
  managing_organization program = None →
  effective user program
  = _remove_permissions_if_enrollments_disabled ENROLLMENT_PERMISSIONS_LIST
      program (resolve user (Some (ProgramObj program))).
Proof.
  intros Hnone. unfold get_effective_user_program_api_permissions.
  rewrite Hnone. simpl. f_equal. apply set_eq. intros p.
  rewrite elem_of_union. split; [|by left].
  intros [?|Hp]; [done |].
  by apply (get_user_api_permissions_global_included user
              (Some (ProgramObj program))).
Qed.

End PermissionExtras.

(** X3: the resolved permissions depend on the identifiers collected, not
    on their order or repetition in what [get_perms] returns. *)
Theorem get_user_api_permissions_same_identifiers
    {User Organization APIPermission : Type} `{Countable APIPermission}
    (get_perms get_perms' : User -> @obj Organization -> list string)
    (get_all_permissions : User -> gset string)
    (mapping : gmap string APIPermission) (user : User) (o : obj) :
  (∀ db_perm, db_perm ∈ get_perms user o ↔ db_perm ∈ get_perms' user o) →
  get_user_api_permissions get_perms get_all_permissions mapping user (Some o)
  = get_user_api_permissions get_perms' get_all_permissions mapping user
      (Some o).
Proof.
  intros Hsame. apply set_eq. intros p.
  rewrite !elem_of_get_user_api_permissions.
  split; intros (db & Hin & Hdb); exists db; (split; [|done]);
    apply elem_of_app; apply elem_of_app in Hin as [Hin|Hin];
    try (by right); left; by apply Hsame.
Qed.

(** ** More on [serialize_to_csv] *)

(** X7: serializing a list of items in two parts and concatenating the
    texts, the header going with the first part only, gives the text of the
    whole list; and the whole list raises exactly when a part does, the
    first part first. *)
Theorem serialize_to_csv_app (items1 items2 : list (gmap string pyval))
    (fn : list string) (include_headers : bool) :
  serialize_to_csv (items1 ++ items2) fn include_headers
  = text1 ← serialize_to_csv items1 fn include_headers;
    text2 ← serialize_to_csv items2 fn false;
    Ok (text1 +:+ text2).
Proof.
  rewrite !serialize_to_csv_eq, rows_text_app.
  destruct (rows_text fn items1) as [text1|e]; [|done]. simpl.
  destruct (rows_text fn items2) as [text2|e]; [|done]. simpl.
  by rewrite append_nil_l, append_assoc.
Qed.

(** X8: the outcome only depends on what each item holds, as text, for
    the names in [field_names]: a missing key, [None] and the empty string
    are written alike, and so are a boolean and the string of its name. *)
Theorem serialize_to_csv_same_texts (items items' : list (gmap string pyval))
    (fn : list string) (include_headers : bool) :
  Forall2 (fun item item' : gmap string pyval =>
             ∀ f, f ∈ fn →
                  cell_text (default (PStr EmptyString) (item !! f))
                  = cell_text (default (PStr EmptyString) (item' !! f)))
    items items' →
  serialize_to_csv items fn include_headers
  = serialize_to_csv items' fn include_headers.
Proof.
  intros Hsame. by rewrite !serialize_to_csv_eq, (rows_text_ext fn items items').
Qed.

(** X9: the encoding of the rows: cells are joined by commas, a cell
    holding a comma, a quote, CR or LF stands between quotes with its
    quotes doubled, any other cell stands as it is; and whatever the texts
    of an item hold, the record written for it, handed to [csv.reader] as
    one line, is read back as these texts. *)
Theorem serialize_to_csv_encoding (items : list (gmap string pyval))
    (fn : list string) (texts : list (list string)) :
  fn ≠ [] →
  Forall2 (item_texts fn) items texts →
  Forall (Forall fits_field) texts →
  ∃ lines,
    serialize_to_csv items fn false
    = Ok (foldr String.append EmptyString
            (map (fun line => line +:+ String CR (String LF EmptyString))
               lines))
    ∧ Csv.reader lines = stream_of_list texts
    ∧ serialize_to_csv
        [ {[ "a" := PStr "x,y"; "b" := PStr (String "034" "q") ]} ] ["a"; "b"]
        false
      = Ok (String "034"
              ("x,y"
               +:+ String "034"
                     (","
                      +:+ String "034"
                            (String "034"
                               (String "034"
                                  ("q"
                                   +:+ String "034"
                                         (String CR (String LF EmptyString)))))))).
Proof.
  intros Hfn Htexts Hfits. exists (map encode_record texts).
  split; [|split].
  - rewrite serialize_to_csv_eq, (rows_text_Ok fn items texts) by done.
    simpl. by rewrite append_nil_l, map_map.
  - apply reader_written_lines. apply Forall_forall. intros ts Hts.
    rewrite Forall_forall in Hfits. split; [|by apply Hfits].
    intros ->. assert (Hlen : length fn = 0%nat); [|by destruct fn].
    clear -Htexts Hts. revert Hts.
    induction Htexts as [|item ts items texts Hitem _ IH]; [by inversion 1 |].
    intros [<-|Hts]%elem_of_cons; [|by apply IH].
    by apply Forall2_length in Hitem.
  - vm_compute. reflexivity.
Qed.

(** X10: when no field name (if the header is written) and no text of an
    item holds a line break, the text splits into one line per row, the
    lines being the encoded records in order. *)
Theorem serialize_to_csv_lines (items : list (gmap string pyval))
    (fn : list string) (include_headers : bool) (texts : list (list string)) :
  (include_headers = true →
   Forall (fun f => str_forall (fun c => negb (is_linebreak c)) f = true) fn) →
  Forall2 (item_texts fn) items texts →
  Forall (Forall (fun t => str_forall (fun c => negb (is_linebreak c)) t = true))
    texts →
  ∃ text,
    serialize_to_csv items fn include_headers = Ok text
    ∧ splitlines text
      = ((if include_headers then [encode_record fn] else [])
         ++ map encode_record texts)%list.
Proof.
  intros Hhead Htexts Hsafe.
  exists (foldr String.append EmptyString
            (map (fun s => s +:+ crlf)
               ((if include_headers then [encode_record fn] else [])
                ++ map encode_record texts)%list)).
  split.
  - rewrite serialize_to_csv_eq, (rows_text_Ok fn items texts) by done.
    destruct include_headers; cbn [app map foldr]; rewrite ?append_nil_l;
      by rewrite map_map.
  - apply splitlines_lines, Forall_app. split.
    + destruct include_headers; [|done]. constructor; [|done].
      by apply encode_record_unbroken, Hhead.
    + apply Forall_forall. intros s (ts & -> & Hts)%list_elem_of_fmap.
      apply encode_record_unbroken. rewrite Forall_forall in Hsafe.
      by apply Hsafe.
Qed.

Lemma rows_text_Raise (fn : list string) (items : list (gmap string pyval))
    (e : exn) :
  rows_text fn items = Raise e ↔
  e = ValueError
  ∧ ∃ item, item ∈ items
            ∧ row_texts (Csv._dict_to_list fn item) = Raise ValueError.
Proof.
  revert e. induction items as [|item items IH]; intros e; cbn [rows_text].
  - split; [done |]. by intros (_ & item & Hitem%elem_of_nil & _).
  - rewrite csv_writerow_eq.
    destruct (row_texts (Csv._dict_to_list fn item)) as [ts|e'] eqn:Hrow; simpl.
    + destruct (rows_text fn items) as [rest|e'] eqn:Hrest; simpl.
      * split; [done |].
        intros (-> & item' & [->|Hitem']%elem_of_cons & Hraise); [congruence |].
        assert (Ok rest = Raise ValueError) as Habs; [|done].
        apply IH. split; [done |]. by exists item'.
      * destruct (proj1 (IH e') eq_refl) as (-> & item' & Hitem' & Hraise).
        split.
        -- intros [= <-]. split; [done |]. exists item'.
           split; [by right | done].
        -- by intros [-> _].
    + pose proof (proj1 (row_texts_Raise _ e') Hrow) as [-> _]. split.
      * intros [= <-]. split; [done |]. exists item. split; [by left | done].
      * by intros [-> _].
Qed.

(** X22: [serialize_to_csv] raises nothing but [ValueError], and raises
    it exactly when some item holds, for a name in [field_names], an
    integer of more than 4300 decimal digits (one of absolute value
    [10 ^ 4300] or more), which [str] refuses to convert; keys outside
    [field_names] and the header never make it raise. *)
Theorem serialize_to_csv_ValueError (items : list (gmap string pyval))
    (fn : list string) (include_headers : bool) :
  (∀ e, serialize_to_csv items fn include_headers = Raise e → e = ValueError)
  ∧ (serialize_to_csv items fn include_headers = Raise ValueError ↔
     ∃ item f z, item ∈ items ∧ f ∈ fn ∧ item !! f = Some (PInt z)
                 ∧ (10 ^ 4300 ≤ Z.abs z)%Z).
Proof.
  assert (Hraise : ∀ e, serialize_to_csv items fn include_headers = Raise e ↔
                        rows_text fn items = Raise e).
  { intros e. rewrite serialize_to_csv_eq.
    by destruct (rows_text fn items). }
  split.
  - intros e He. apply Hraise, rows_text_Raise in He as [-> _]. done.
  - rewrite Hraise, rows_text_Raise. split.
    + intros (_ & item & Hitem & (_ & v & Hv & Htext)%row_texts_Raise).
      apply cell_text_Raise in Htext as (_ & z & -> & Hz).
      unfold Csv._dict_to_list in Hv.
      apply list_elem_of_fmap in Hv as (f & Hv & Hf).
      exists item, f, z. repeat split; [done | done | | done].
      by destruct (item !! f) as [v|]; simpl in Hv; [rewrite Hv |].
    + intros (item & f & z & Hitem & Hf & Hz & Hlimit). split; [done |].
      exists item. split; [done |]. apply row_texts_Raise. split; [done |].
      exists (PInt z). split.
      * unfold Csv._dict_to_list. apply list_elem_of_fmap. exists f.
        by rewrite Hz.
      * apply cell_text_Raise. split; [done |]. by exists z.
Qed.

(** ** What [load_records_from_csv] can raise *)(** ** What [load_records_from_csv] can raise *)

Lemma splitlines_nil (s : string) : splitlines s = [] ↔ s = EmptyString.
Proof.
  split; [|by intros ->]. destruct s as [|c s]; [done |]. simpl.
  destruct (is_linebreak c); [done |]. by destruct (splitlines s).
Qed.

Lemma parse_add_char_raises (self : Csv.ReaderObj) (c : ascii) (e : exn) :
  Csv.parse_add_char self c = Raise e → ∃ msg, e = csv_Error msg.
Proof.
  unfold Csv.parse_add_char. destruct (_ <=? _)%N; [|done].
  intros [= <-]. by eexists.
Qed.

Lemma parse_process_char_raises (self : Csv.ReaderObj) (c : Csv.input)
    (e : exn) :
  Csv.parse_process_char self c = Raise e → ∃ msg, e = csv_Error msg.
Proof.
  unfold Csv.parse_process_char, Csv.start_field.
  destruct (Csv.state self), c as [ch|]; try done;
    repeat (match goal with
            | |- context [if ?b then _ else _] => destruct b
            end; try done);
    try (intros [= <-]; by eexists);
    match goal with
    | |- context [Csv.parse_add_char ?s ?ch] =>
        destruct (Csv.parse_add_char s ch) as [self'|e'] eqn:Hadd; simpl;
        [done | intros [= <-]; by apply parse_add_char_raises in Hadd]
    end.
Qed.

Lemma process_line_raises (self : Csv.ReaderObj) (line : string) (e : exn) :
  Csv.process_line self line = Raise e → ∃ msg, e = csv_Error msg.
Proof.
  unfold Csv.process_line.
  assert (Hchars : ∀ self, Csv.process_chars self line = Raise e →
                           ∃ msg, e = csv_Error msg).
  { induction line as [|c line IH]; intros st; simpl; [done |].
    destruct (Csv.parse_process_char st (Csv.Ch c)) as [st'|e'] eqn:Hc; simpl.
    - apply IH.
    - intros [= <-]. by apply parse_process_char_raises in Hc. }
  destruct (Csv.process_chars self line) as [self'|e'] eqn:Hrun; simpl.
  - apply parse_process_char_raises.
  - intros [= <-]. by apply Hchars in Hrun.
Qed.

(** The reader raises nothing but [csv.Error]. *)
Lemma Reader_iter_raises (lines : list string) (self : Csv.ReaderObj)
    (e : exn) :
  stream_raises (Csv.Reader_iter self lines) = Some e →
  ∃ msg, e = csv_Error msg.
Proof.
  revert self. induction lines as [|line lines IH]; intros self; simpl.
  - by destruct (_ || _).
  - destruct (Csv.process_line self line) as [self'|e'] eqn:Hline; simpl.
    + destruct (Csv.state self'); simpl; apply IH.
    + intros [= <-]. by apply process_line_raises in Hline.
Qed.

Lemma process_line_state (self self' : Csv.ReaderObj) (line : string) :
  Csv.process_line self line = Ok self' →
  Csv.state self' = Csv.START_RECORD ∨ Csv.state self' = Csv.IN_QUOTED_FIELD.
Proof.
  unfold Csv.process_line.
  destruct (Csv.process_chars self line) as [st|e]; simpl; [|done].
  unfold Csv.parse_process_char, Csv.start_field.
  destruct st as [[] fs fld]; simpl; intros [= <-]; simpl; auto.
Qed.

(** Lines always give the reader a record, or an error. *)
Lemma Reader_iter_not_SNil (lines : list string) (self : Csv.ReaderObj) :
  lines ≠ [] ∨ Csv.state self = Csv.IN_QUOTED_FIELD →
  Csv.Reader_iter self lines ≠ SNil.
Proof.
  revert self. induction lines as [|line lines IH]; intros self Hcase; simpl.
  - destruct Hcase as [?|Hq]; [done |]. unfold Csv.in_quoted_field.
    rewrite Hq, orb_true_r. done.
  - destruct (Csv.process_line self line) as [self'|e] eqn:Hline; [|done].
    destruct (process_line_state _ _ _ Hline) as [Hst|Hst]; rewrite Hst;
      [done |].
    apply IH. by right.
Qed.

Lemma DictReader_rows_raises (names : list string)
    (records : stream (list string)) :
  stream_raises (Csv.DictReader_rows names records) = stream_raises records.
Proof.
  induction records as [|r rest IH|e]; simpl; try done. by destruct r.
Qed.

Lemma DictReader_rows_stream_items (names : list string)
    (records : stream (list string)) :
  stream_items (Csv.DictReader_rows names records)
  = map (Csv.DictReader_row names) (List.filter nonblank (stream_items records)).
Proof.
  induction records as [|r rest IH|e]; simpl; try done.
  destruct r; simpl; by rewrite IH.
Qed.

(** Why the loop over the rows ends in an exception. *)
Lemma load_rows_Raise (fn req : gset string) (n : nat)
    (rows : stream (gmap (option string) cell))
    (acc : list (gmap string string)) (e : exn) :
  load_rows fn req n rows acc = Raise e →
  stream_raises rows = Some e
  ∨ (∃ k, (k < length (stream_items rows))%nat
          ∧ e = ValidationError (missing_data_message (n + k) fn))
  ∨ (e = AttributeError
     ∧ ∃ row f v, row ∈ stream_items rows ∧ f ∈ fn
                  ∧ row !! Some f = Some v ∧ ∀ s, v ≠ CStr s)
  ∨ (e = KeyError
     ∧ ∃ row f, row ∈ stream_items rows ∧ f ∈ req ∧ row !! Some f = None).
Proof.
  revert n acc. induction rows as [|row rest IH|e']; intros n acc Hrun;
    simpl in Hrun.
  - discriminate.
  - unfold row_lacks_data in Hrun.
    case_bool_decide as Hnone; simpl in Hrun.
    { injection Hrun as <-. right; left. exists 0%nat. simpl.
      split; [lia | by rewrite Nat.add_0_r]. }
    destruct (all_required row (elements req)) as [all_ok|e1] eqn:Hall;
      simpl in Hrun.
    + destruct all_ok; simpl in Hrun.
      * destruct (strip_items fn (map_to_list row) ∅) as [record|e2] eqn:Hstrip;
          simpl in Hrun.
        -- apply IH in Hrun
             as [Hend|[(k & Hk & ->)|[(-> & r & f & v & Hr & Hrest)
                                     |(-> & r & f & Hr & Hrest)]]].
           ++ by left.
           ++ right; left. exists (S k). simpl. split; [lia |].
              by rewrite Nat.add_succ_r.
           ++ right; right; left. split; [done |].
              exists r, f, v. split; [by right | done].
           ++ right; right; right. split; [done |].
              exists r, f. split; [by right | done].
        -- injection Hrun as <-. right; right; left.
           assert (Hbad : e2 = AttributeError
                    ∧ ∃ f v, (Some f, v) ∈ map_to_list row ∧ f ∈ fn
                             ∧ ∀ s, v ≠ CStr s).
           { revert Hstrip. generalize (∅ : gmap string string).
             induction (map_to_list row) as [|[k v] l IHl]; intros m; simpl;
               [done |].
             assert (Hnext : strip_items fn l m = Raise e2 →
                       e2 = AttributeError
                       ∧ ∃ f v0, (Some f, v0) ∈ (k, v) :: l ∧ f ∈ fn
                                 ∧ ∀ s, v0 ≠ CStr s).
             { intros (-> & f & v0 & Hin & Hrest)%IHl. split; [done |].
               exists f, v0. split; [by right | done]. }
             destruct k as [f|]; [|done].
             case_bool_decide as Hf; [|done].
             destruct v as [s| |l0].
             - intros (-> & f' & v0 & Hin & Hrest)%IHl. split; [done |].
               exists f', v0. split; [by right | done].
             - intros [= <-]. split; [done |]. exists f, CNone.
               split; [left | done].
             - intros [= <-]. split; [done |]. exists f, (CList l0).
               split; [left | done]. }
           destruct Hbad as (-> & f & v & Hin%elem_of_map_to_list & Hf & Hv).
           split; [done |]. exists row, f, v. split; [left | done].
      * injection Hrun as <-. right; left. exists 0%nat. simpl.
        split; [lia | by rewrite Nat.add_0_r].
    + injection Hrun as <-. right; right; right.
      assert (Hkey : e1 = KeyError
                ∧ ∃ f, f ∈ elements req ∧ row !! Some f = None).
      { revert Hall. induction (elements req) as [|f l IHl]; simpl; [done |].
        destruct (row !! Some f) as [v|] eqn:Hf.
        - destruct (truthy v); [|done].
          intros (-> & g & Hg & Hrow)%IHl. split; [done |].
          exists g. split; [by right | done].
        - intros [= <-]. split; [done |]. exists f. split; [left | done]. }
      destruct Hkey as (-> & f & Hf%elem_of_elements & Hrow).
      split; [done |]. exists row, f. split; [left | done].
  - injection Hrun as <-. by left.
Qed.

Lemma foldl_zip_insert_value (l : list (string * string))
    (d : gmap (option string) cell) (k : option string) (v : cell) :
  foldl (fun d kv => <[Some kv.1 := CStr kv.2]> d) d l !! k = Some v →
  d !! k = Some v ∨ ∃ s, v = CStr s.
Proof.
  revert d. induction l as [|[f0 s0] l IH]; intros d; simpl; [by left |].
  intros [Hk|?]%IH; [|by right].
  destruct (decide (Some f0 = k)) as [<-|Hne].
  - rewrite lookup_insert_eq in Hk. injection Hk as <-. right. by eexists.
  - rewrite lookup_insert_ne in Hk by done. by left.
Qed.

Lemma foldl_pad_value (l : list string) (d : gmap (option string) cell)
    (k : option string) (v : cell) :
  foldl (fun d key => <[Some key := CNone]> d) d l !! k = Some v →
  d !! k = Some v ∨ (v = CNone ∧ l ≠ []).
Proof.
  revert d. induction l as [|f0 l IH]; intros d; simpl; [by left |].
  intros [Hk|[-> _]]%IH; [|by right].
  destruct (decide (Some f0 = k)) as [<-|Hne].
  - rewrite lookup_insert_eq in Hk. injection Hk as <-. by right.
  - rewrite lookup_insert_ne in Hk by done. by left.
Qed.

(** Under a column name a row holds a cell of the line, or [None] when the
    line is too short. *)
Lemma DictReader_row_value (names r : list string) (f : string) (v : cell) :
  Csv.DictReader_row names r !! Some f = Some v →
  (∃ s, v = CStr s) ∨ (v = CNone ∧ (length r < length names)%nat).
Proof.
  unfold Csv.DictReader_row, Csv.dict_zip.
  destruct (Nat.ltb_spec (length names) (length r)) as [Hlong|Hle].
  - rewrite lookup_insert_ne by done.
    intros [Hk|?]%foldl_zip_insert_value; [by rewrite lookup_empty in Hk |].
    by left.
  - destruct (Nat.ltb_spec (length r) (length names)) as [Hshort|Hge].
    + intros [[Hk|?]%foldl_zip_insert_value|[-> _]]%foldl_pad_value;
        [by rewrite lookup_empty in Hk | by left | by right].
    + intros [Hk|?]%foldl_zip_insert_value;
        [by rewrite lookup_empty in Hk | by left].
Qed.

(** A row has the key [None] exactly when the line is too long. *)
Lemma DictReader_row_None (names r : list string) :
  is_Some (Csv.DictReader_row names r !! None)
  ↔ (length names < length r)%nat.
Proof.
  assert (Hpad : foldl (fun d key => <[Some key := CNone]> d)
                   (Csv.dict_zip names r) (drop (length r) names) !! None
                 = None).
  { apply eq_None_not_Some. unfold Csv.dict_zip.
    rewrite zip_pad_is_Some, lookup_empty.
    by intros [[? ?]|(f & ? & _)]. }
  unfold Csv.DictReader_row.
  destruct (Nat.ltb_spec (length names) (length r)) as [Hlong|Hle].
  - rewrite lookup_insert_eq. split; [done | by eexists].
  - assert (Hnone : (if (length r <? length names)%nat
                     then foldl (fun d key => <[Some key := CNone]> d)
                            (Csv.dict_zip names r) (drop (length r) names)
                     else Csv.dict_zip names r) !! None = None).
    { destruct (Nat.ltb_spec (length r) (length names)); [done |].
      rewrite <- Hpad. by rewrite drop_ge by lia. }
    rewrite Hnone. split; [by intros [? ?] | lia].
Qed.

(** The failure of a load, traced to its cause. *)
Lemma load_records_from_csv_Raise (csv : string) (fn opt : gset string)
    (e : exn) :
  load_records_from_csv csv fn opt = Raise e →
  (csv = EmptyString ∧ e = TypeError)
  ∨ (∃ msg, e = csv_Error msg)
  ∨ ∃ raw rest,
      Csv.reader (splitlines csv) = SCons raw rest
      ∧ (((fn ∖ opt) ∖ list_to_set (map normalize raw) ≠ ∅
          ∧ e = ValidationError
                  (missing_headers_message
                     ((fn ∖ opt) ∖ list_to_set (map normalize raw))))
         ∨ (∃ k, (k < length (List.filter nonblank (stream_items rest)))%nat
                 ∧ e = ValidationError (missing_data_message (S k) fn))
         ∨ (e = AttributeError
            ∧ ∃ r, r ∈ stream_items rest ∧ r ≠ []
                   ∧ (length r < length raw)%nat)).
Proof.
  rewrite load_records_from_csv_eq. unfold Csv.reader.
  destruct (Csv.Reader_iter Csv.parse_reset (splitlines csv))
    as [|raw rest|e'] eqn:Hreader.
  - intros [= <-]. left. split; [|done]. apply splitlines_nil.
    destruct (splitlines csv) as [|l ls] eqn:Hlines; [done |].
    exfalso. by apply (Reader_iter_not_SNil (l :: ls) Csv.parse_reset);
      [left |].
  - cbn zeta. case_bool_decide as Hmiss.
    + intros [= <-]. right; right. exists raw, rest. split; [done |]. by left.
    + intros Hrun. apply load_rows_Raise in Hrun
        as [Hend|[(k & Hk & ->)|[(-> & row & f & v & Hrow & Hf & Hv & Hstr)
                                |(-> & row & f & Hrow & Hf & Hv)]]].
      * right; left. rewrite DictReader_rows_raises in Hend.
        apply (Reader_iter_raises (splitlines csv) Csv.parse_reset).
        by rewrite Hreader.
      * right; right. exists raw, rest. split; [done |]. right; left.
        exists k. rewrite DictReader_rows_stream_items, length_map in Hk.
        split; [done |]. done.
      * right; right. exists raw, rest. split; [done |]. right; right.
        split; [done |]. rewrite DictReader_rows_stream_items in Hrow.
        apply list_elem_of_fmap in Hrow as (r & -> & Hr).
        apply list_elem_of_In, filter_In in Hr as [Hr Hnb].
        exists r. split; [by apply list_elem_of_In |].
        split; [by destruct r |].
        apply DictReader_row_value in Hv as [[s ->]|[_ Hlen]];
          [by destruct (Hstr s) |].
        by rewrite length_map in Hlen.
      * exfalso. rewrite DictReader_rows_stream_items in Hrow.
        apply list_elem_of_fmap in Hrow as (r & -> & _).
        assert (is_Some (Csv.DictReader_row (map normalize raw) r !! Some f))
          as [? ?]; [|congruence].
        apply DictReader_row_keys.
        destruct (decide (f ∈ map normalize raw)) as [|Hnot]; [done |].
        exfalso.
        assert (f ∈ (fn ∖ opt) ∖ (list_to_set (map normalize raw) : gset string))
          as Hin.
        { apply elem_of_difference. split; [done |].
          by rewrite elem_of_list_to_set. }
        rewrite Hmiss in Hin. by apply not_elem_of_empty in Hin.
  - intros [= <-]. right; left.
    apply (Reader_iter_raises (splitlines csv) Csv.parse_reset).
    by rewrite Hreader.
Qed.

(** X11: the only text on which the load ends in a [TypeError] is the empty
    string. *)
Theorem load_records_from_csv_TypeError_iff (csv : string)
    (fn opt : gset string) :
  load_records_from_csv csv fn opt = Raise TypeError ↔ csv = EmptyString.
Proof.
  split; [|by intros ->].
  intros [[? _]|[[msg ?]|(raw & rest & _ & [[_ ?]|[(k & _ & ?)|[? _]]])]]
    %load_records_from_csv_Raise; done.
Qed.

(** X13: the load ends in an [AttributeError] only when some line of data
    has fewer cells than the header. *)
Theorem load_records_from_csv_AttributeError (csv : string)
    (fn opt : gset string) :
  load_records_from_csv csv fn opt = Raise AttributeError →
  ∃ raw rest r,
    Csv.reader (splitlines csv) = SCons raw rest
    ∧ r ∈ stream_items rest ∧ r ≠ [] ∧ (length r < length raw)%nat.
Proof.
  intros [[_ ?]|[[msg ?]|(raw & rest & Hraw
                           & [[_ ?]|[(k & _ & ?)|[_ (r & Hr)]]])]]
    %load_records_from_csv_Raise; try done.
  by exists raw, rest, r.
Qed.

(** X14: a [ValidationError] of the load carries one of two messages: the
    missing-headers message listing every required field absent from the
    trimmed, lowercased header, or the missing-data message with the number
    of a row, counted from 1 over the lines of data that are not blank. *)
Theorem load_records_from_csv_ValidationError (csv : string)
    (fn opt : gset string) (detail : string) :
  load_records_from_csv csv fn opt = Raise (ValidationError detail) →
  ∃ raw rest,
    Csv.reader (splitlines csv) = SCons raw rest
    ∧ (((fn ∖ opt) ∖ list_to_set (map (fun h => lower (strip h)) raw) ≠ ∅
        ∧ detail = missing_headers_message
                     ((fn ∖ opt)
                      ∖ list_to_set (map (fun h => lower (strip h)) raw)))
       ∨ ∃ n, (1 ≤ n ≤ length (List.filter nonblank (stream_items rest)))%nat
              ∧ detail = missing_data_message n fn).
Proof.
  intros [[_ ?]|[[msg ?]|(raw & rest & Hraw
                           & [[Hmiss Hd]|[(k & Hk & Hd)|[? _]]])]]
    %load_records_from_csv_Raise; try done.
  - exists raw, rest. split; [done |]. left. split; [done | congruence].
  - exists raw, rest. split; [done |]. right. exists (S k).
    split; [lia | congruence].
Qed.


(** ** When [load_records_from_csv] succeeds *)

Lemma load_rows_accepted (fn req : gset string) (n : nat)
    (rows : stream (gmap (option string) cell))
    (acc new : list (gmap string string)) :
  stream_raises rows = None →
  Forall2 (accepted fn req) (stream_items rows) new →
  load_rows fn req n rows acc = Ok (acc ++ new)%list.
Proof.
  revert n acc new. induction rows as [|row rest IH|e]; intros n acc new Hend;
    simpl.
  - intros ->%Forall2_nil_inv_l. by rewrite app_nil_r.
  - intros (record & new' & (Hnone & Hall & Hstrip) & Hrest & ->)
      %Forall2_cons_inv_l.
    unfold row_lacks_data. rewrite Hnone.
    rewrite bool_decide_eq_false_2 by (by intros [? ?]).
    rewrite Hall. simpl. rewrite Hstrip. simpl.
    rewrite (IH _ _ new') by done. by rewrite <- app_assoc.
  - done.
Qed.

(** X16: the load returns records exactly when the text has a header
    record, the reader gets through the text without error, every required
    field is among the trimmed, lowercased header names, and every line of
    data that is not blank has no more cells than the header, a non-empty
    cell for every required field and a cell for every requested field that
    has a column; the records then hold, in order, the trimmed cells of the
    requested fields that have a column. *)
Theorem load_records_from_csv_Ok_iff (csv : string) (fn opt : gset string)
    (records : list (gmap string string)) :
  load_records_from_csv csv fn opt = Ok records ↔
  ∃ raw rest,
    Csv.reader (splitlines csv) = SCons raw rest
    ∧ stream_raises rest = None
    ∧ (∀ f, f ∈ fn ∖ opt → f ∈ map (fun h => lower (strip h)) raw)
    ∧ Forall2
        (fun (r : list string) (record : gmap string string) =>
           (length r ≤ length raw)%nat
           ∧ (∀ f, f ∈ fn ∖ opt →
                   ∃ v, Csv.DictReader_row
                          (map (fun h => lower (strip h)) raw) r !! Some f
                        = Some (CStr v) ∧ v ≠ EmptyString)
           ∧ (∀ f, f ∈ fn →
                   Csv.DictReader_row
                     (map (fun h => lower (strip h)) raw) r !! Some f
                   ≠ Some CNone)
           ∧ (∀ f, record !! f
                   = if decide (f ∈ fn)
                     then match Csv.DictReader_row
                                  (map (fun h => lower (strip h)) raw) r
                                !! Some f with
                          | Some (CStr v) => Some (strip v)
                          | _ => None
                          end
                     else None))
        (List.filter nonblank (stream_items rest)) records.
Proof.
  split.
  - intros Hload.
    assert (Hend : ∃ raw rest, Csv.reader (splitlines csv) = SCons raw rest
                               ∧ stream_raises rest = None).
    { rewrite load_records_from_csv_eq in Hload.
      destruct (Csv.reader (splitlines csv)) as [|raw rest|e]; try done.
      exists raw, rest. split; [done |]. cbn zeta in Hload.
      case_bool_decide; [done |]. clear -Hload.
      rewrite <- (DictReader_rows_raises (map normalize raw)).
      revert Hload. generalize (Csv.DictReader_rows (map normalize raw) rest).
      generalize 1%nat, (@nil (gmap string string)).
      intros n acc rows. revert n acc.
      induction rows as [|row rows IH|e]; intros n acc; simpl; try done.
      destruct (row_lacks_data row (fn ∖ opt)) as [[]|]; simpl; try done.
      destruct (strip_items fn (map_to_list row) ∅); simpl; try done.
      apply IH. }
    destruct Hend as (raw & rest & Hraw & Hend).
    apply load_records_from_csv_Ok in Hload
      as (raw' & rest' & Hraw' & Hhead & Hrows).
    rewrite Hraw in Hraw'. injection Hraw' as <- <-.
    exists raw, rest. split; [done |]. split; [done |]. split.
    { intros f Hf%Hhead. by apply elem_of_list_to_set in Hf. }
    rewrite DictReader_rows_stream_items in Hrows.
    apply (Forall2_fmap_l (Csv.DictReader_row (map normalize raw))) in Hrows.
    eapply Forall2_impl; [exact Hrows |].
    intros r record (Hnone & Hall & Hstrip). simpl in *.
    destruct (strip_row_spec _ _ _ Hstrip) as [Hkept Hdropped].
    split; [|split; [|split]].
    + destruct (Nat.le_gt_cases (length r) (length raw)) as [|Hlong]; [done |].
      assert (is_Some (Csv.DictReader_row (map normalize raw) r !! None))
        as [? ?]; [|congruence].
      apply DictReader_row_None. by rewrite length_map.
    + intros f Hf.
      destruct (proj1 (all_required_true _ _) Hall f) as (c & Hc & Ht);
        [by apply elem_of_elements |].
      destruct (Hkept f c Hc) as (s & -> & _);
        [by apply elem_of_difference in Hf as [? _] |].
      exists s. split; [done |]. by intros ->.
    + intros f Hf Hcut. by destruct (Hkept f CNone Hcut Hf) as (s & ? & _).
    + intros f. destruct (decide (f ∈ fn)) as [Hf|Hf];
        [|by apply Hdropped; left].
      destruct (Csv.DictReader_row (map normalize raw) r !! Some f)
        as [c|] eqn:Hc; [|by apply Hdropped; right].
      by destruct (Hkept f c Hc Hf) as (s & -> & ->).
  - intros (raw & rest & Hraw & Hend & Hhead & Hrows).
    rewrite load_records_from_csv_eq, Hraw. cbn zeta.
    rewrite bool_decide_eq_false_2.
    2: { intros Hne. apply Hne. apply set_eq. intros f.
         rewrite elem_of_difference, elem_of_list_to_set.
         split; [|by intros ?%not_elem_of_empty].
         intros [Hf Hnot]. by destruct Hnot; apply Hhead. }
    apply (load_rows_accepted _ _ _ _ []).
    { by rewrite DictReader_rows_raises. }
    rewrite DictReader_rows_stream_items.
    apply (Forall2_fmap_l (Csv.DictReader_row (map normalize raw))).
    eapply Forall2_impl; [exact Hrows |].
    intros r record (Hlen & Hreq & Hcut & Hrec). simpl.
    split; [|split].
    + apply eq_None_not_Some. rewrite DictReader_row_None, length_map. lia.
    + apply all_required_true. intros f Hf%elem_of_elements.
      destruct (Hreq f Hf) as (v & Hv & Hne). exists (CStr v).
      split; [done |]. simpl. by destruct v.
    + destruct (strip_items_total fn
                  (map_to_list (Csv.DictReader_row (map normalize raw) r)) ∅)
        as [record' Hrun].
      { intros f v Hv%elem_of_map_to_list Hf.
        destruct (DictReader_row_value _ _ _ _ Hv) as [?|[-> _]]; [done |].
        by destruct (Hcut f Hf). }
      rewrite Hrun. f_equal. apply map_eq. intros f. rewrite Hrec.
      destruct (strip_row_spec _ _ _ Hrun) as [Hkept Hdropped].
      destruct (decide (f ∈ fn)) as [Hf|Hf]; [|by apply Hdropped; left].
      destruct (Csv.DictReader_row (map normalize raw) r !! Some f)
        as [c|] eqn:Hc; [|by apply Hdropped; right].
      by destruct (Hkept f c Hc Hf) as (s & -> & ->).
Qed.

(** X17: names in [optional_fields] that are not in [field_names] make no
    difference. *)
Theorem load_records_from_csv_optional_outside (csv : string)
    (fn opt : gset string) :
  load_records_from_csv csv fn (opt ∩ fn) = load_records_from_csv csv fn opt.
Proof.
  rewrite !load_records_from_csv_eq.
  assert (fn ∖ (opt ∩ fn) = fn ∖ opt) as ->; [|done].
  apply set_eq. intros f. rewrite !elem_of_difference, elem_of_intersection.
  split; intros [Hf Hnot]; (split; [done |]); [|by intros [? _]].
  intros Hopt. by apply Hnot.
Qed.

(** X18: two texts that differ only in the case and the surrounding
    whitespace of their header cells load alike. *)
Theorem load_records_from_csv_header_case (csv csv' : string)
    (raw raw' : list string) (rest : stream (list string))
    (fn opt : gset string) :
  Csv.reader (splitlines csv) = SCons raw rest →
  Csv.reader (splitlines csv') = SCons raw' rest →
  map (fun h => lower (strip h)) raw = map (fun h => lower (strip h)) raw' →
  load_records_from_csv csv fn opt = load_records_from_csv csv' fn opt.
Proof.
  intros Hraw Hraw' Hnames.
  rewrite !load_records_from_csv_eq, Hraw, Hraw'. cbn zeta. by rewrite Hnames.
Qed.

(** ** A final line end *)

Lemma splitlines_final_nl_aux (n : nat) (s : string) :
  (String.length s ≤ n)%nat →
  splitlines (s +:+ nl) = splitlines s
  ∨ splitlines (s +:+ nl) = (splitlines s ++ [EmptyString])%list.
Proof.
  revert s. induction n as [|n IH]; intros s Hlen.
  { destruct s; [by right | simpl in Hlen; lia]. }
  destruct s as [|c r]; [by right |].
  simpl in Hlen. assert (Hr : (String.length r ≤ n)%nat) by lia.
  rewrite append_cons. cbn [splitlines].
  destruct (is_linebreak c) eqn:Hc.
  - destruct (Ascii.eqb c CR) eqn:Hcr.
    + destruct r as [|c' r'].
      * left. reflexivity.
      * rewrite append_cons. destruct (Ascii.eqb c' LF) eqn:Hlf.
        -- simpl in Hr. destruct (IH r') as [-> | ->]; [lia | by left | by right].
        -- rewrite <- append_cons.
           destruct (IH (String c' r') Hr) as [-> | ->]; [by left | by right].
    + destruct (IH r Hr) as [-> | ->]; [by left | by right].
  - destruct (IH r Hr) as [-> | ->]; [by left |].
    destruct (splitlines r) as [|l ls]; [by left | by right].
Qed.

(** Adding a line end to a text leaves its lines as they are or adds one
    empty line. *)
Lemma splitlines_final_nl (s : string) :
  splitlines (s +:+ nl) = splitlines s
  ∨ splitlines (s +:+ nl) = (splitlines s ++ [EmptyString])%list.
Proof. by apply (splitlines_final_nl_aux (String.length s)). Qed.

(** One more empty line gives the reader at most one more blank record. *)
Lemma Reader_iter_blank_line (lines : list string) (self : Csv.ReaderObj) :
  self = Csv.parse_reset ∨ Csv.state self = Csv.IN_QUOTED_FIELD →
  Csv.Reader_iter self (lines ++ [EmptyString])
  = Csv.Reader_iter self lines
  ∨ Csv.Reader_iter self (lines ++ [EmptyString])
    = with_blank_end (Csv.Reader_iter self lines).
Proof.
  revert self. induction lines as [|line lines IH]; intros self Hself.
  - destruct Hself as [-> | Hq]; [by right |]. left.
    destruct self as [st fs fld]. simpl in Hq. subst st. reflexivity.
  - cbn [app Csv.Reader_iter].
    destruct (Csv.process_line self line) as [self'|e] eqn:Hline; [|by left].
    destruct (process_line_state _ _ _ Hline) as [Hst|Hst]; rewrite Hst.
    + destruct (IH Csv.parse_reset) as [-> | ->];
        [by left | by left | by right].
    + destruct (IH self') as [-> | ->]; [by right | by left | by right].
Qed.

Lemma DictReader_rows_with_blank_end (names : list string)
    (records : stream (list string)) :
  Csv.DictReader_rows names (with_blank_end records)
  = Csv.DictReader_rows names records.
Proof.
  induction records as [|r rest IH|e]; simpl; try done.
  destruct r; by rewrite IH.
Qed.

(** X19: a line feed added at the end of a text that is not empty does not
    change what the load returns or raises. *)
Theorem load_records_from_csv_final_newline (csv : string)
    (fn opt : gset string) :
  csv ≠ EmptyString →
  load_records_from_csv (csv +:+ nl) fn opt = load_records_from_csv csv fn opt.
Proof.
  intros Hne. rewrite !load_records_from_csv_eq.
  destruct (splitlines_final_nl csv) as [-> | ->]; [done |].
  unfold Csv.reader.
  destruct (Reader_iter_blank_line (splitlines csv) Csv.parse_reset)
    as [-> | ->]; [by left | done |].
  destruct (Csv.Reader_iter Csv.parse_reset (splitlines csv))
    as [|raw rest|e] eqn:Hreader; [|simpl|done].
  - exfalso. apply (Reader_iter_not_SNil (splitlines csv) Csv.parse_reset);
      [|done]. left. by rewrite splitlines_nil.
  - by rewrite DictReader_rows_with_blank_end.
Qed.

(** ** Rows the loop rejects *)

Lemma all_required_false (row : gmap (option string) cell) (fs : list string)
    (f : string) (v : cell) :
  (∀ g, g ∈ fs → is_Some (row !! Some g)) →
  f ∈ fs → row !! Some f = Some v → truthy v = false →
  all_required row fs = Ok false.
Proof.
  induction fs as [|g fs IH]; intros Hkeys Hf Hv Ht; [inversion Hf |].
  simpl. destruct (Hkeys g) as [w Hw]; [left |]. rewrite Hw.
  destruct (truthy w) eqn:Htw; [|done].
  apply IH; try done.
  - intros h Hh. apply Hkeys. by right.
  - apply elem_of_cons in Hf as [->|?]; [congruence | done].
Qed.

(** X20: a line with more cells than the header makes the loop raise the
    missing-data error with the number of that row, whatever the cells
    hold. *)
Theorem load_rows_surplus_cells (fn req : gset string) (n : nat)
    (names r : list string) (rest : stream (gmap (option string) cell))
    (acc : list (gmap string string)) :
  (length names < length r)%nat →
  load_rows fn req n (SCons (Csv.DictReader_row names r) rest) acc
  = Raise (ValidationError (missing_data_message n fn)).
Proof.
  intros Hlong. simpl. unfold row_lacks_data.
  rewrite bool_decide_eq_true_2; [done |]. by apply DictReader_row_None.
Qed.

(** X21: with every required field among the column names, a line whose
    cell for some required field is empty, or that is too short to have
    one, makes the loop raise the missing-data error with the number of
    that row. *)
Theorem load_rows_required_cell_missing (fn req : gset string) (n : nat)
    (names r : list string) (rest : stream (gmap (option string) cell))
    (acc : list (gmap string string)) (f : string) :
  (∀ g, g ∈ req → g ∈ names) →
  f ∈ req →
  Csv.DictReader_row names r !! Some f = Some (CStr EmptyString)
  ∨ Csv.DictReader_row names r !! Some f = Some CNone →
  load_rows fn req n (SCons (Csv.DictReader_row names r) rest) acc
  = Raise (ValidationError (missing_data_message n fn)).
Proof.
  intros Hhead Hf Hcell. simpl. unfold row_lacks_data.
  case_bool_decide; [done |].
  assert (∃ v, Csv.DictReader_row names r !! Some f = Some v
               ∧ truthy v = false) as (v & Hv & Ht).
  { destruct Hcell as [Hc|Hc]; eexists; by split. }
  rewrite (all_required_false _ _ f v); try done.
  - intros g Hg%elem_of_elements. by apply DictReader_row_keys, Hhead.
  - by apply elem_of_elements.
Qed.

(** X12: whatever the text, a load that fails fails with a
    [ValidationError], a [TypeError], an [AttributeError] or a [csv.Error];
    [row[field]] never misses its key. *)
Theorem load_records_from_csv_exceptions (csv : string) (fn opt : gset string)
    (e : exn) :
  load_records_from_csv csv fn opt = Raise e →
  (∃ detail, e = ValidationError detail) ∨ e = TypeError
  ∨ e = AttributeError ∨ ∃ msg, e = csv_Error msg.
Proof.
  intros [[_ ->]|[[msg ->]|(raw & rest & _
                            & [[_ ->]|[(k & _ & ->)|[-> _]]])]]
    %load_records_from_csv_Raise; eauto.
Qed.

(** ** The further properties at work on concrete inputs *)

Lemma get_user_api_permissions_same_identifiers_witness :
  get_user_api_permissions
    (fun (_ : unit) (_ : @obj unit) => ["read"; "write"; "read"])
    (fun _ => ∅) ({[ "read" := "api_read"; "write" := "api_write" ]}
                  : gmap string string)
    tt (Some (OrganizationObj tt))
  = get_user_api_permissions
      (fun (_ : unit) (_ : @obj unit) => ["write"; "read"])
      (fun _ => ∅) ({[ "read" := "api_read"; "write" := "api_write" ]}
                    : gmap string string)
      tt (Some (OrganizationObj tt)).
Proof.
  apply (get_user_api_permissions_same_identifiers
           (fun (_ : unit) (_ : @obj unit) => ["read"; "write"; "read"])
           (fun (_ : unit) (_ : @obj unit) => ["write"; "read"])).
  intros db_perm. rewrite !elem_of_cons, !elem_of_nil. tauto.
Defined.

Lemma effective_permissions_exclude_enrollment_witness :
  "api_read_enrollments"
  ∉ get_effective_user_program_api_permissions
      (fun (_ : unit) (_ : @obj unit) => ["read_enrollments"; "read_metadata"])
      (fun _ => ∅)
      ({[ "read_enrollments" := "api_read_enrollments";
          "read_metadata" := "api_read_metadata" ]} : gmap string string)
      ["api_read_enrollments"; "api_write_enrollments"]
      tt (@mkProgram unit (Some tt) false).
Proof.
  apply effective_permissions_exclude_enrollment; [reflexivity | left].
Defined.

Lemma effective_permissions_without_organization_witness :
  get_effective_user_program_api_permissions
    (fun (_ : unit) (_ : @obj unit) => ["read_metadata"])
    (fun _ => {[ "read_enrollments" ]})
    ({[ "read_enrollments" := "api_read_enrollments";
        "read_metadata" := "api_read_metadata" ]} : gmap string string)
    ["api_read_enrollments"] tt (@mkProgram unit None true)
  = _remove_permissions_if_enrollments_disabled ["api_read_enrollments"]
      (@mkProgram unit None true)
      (get_user_api_permissions
         (fun (_ : unit) (_ : @obj unit) => ["read_metadata"])
         (fun _ => {[ "read_enrollments" ]})
         ({[ "read_enrollments" := "api_read_enrollments";
             "read_metadata" := "api_read_metadata" ]} : gmap string string)
         tt (Some (ProgramObj (@mkProgram unit None true)))).
Proof.
  apply effective_permissions_without_organization. reflexivity.
Defined.

Lemma serialize_to_csv_same_texts_witness :
  serialize_to_csv
    [ ({[ "a" := PNone; "b" := PBool true ]} : gmap string pyval) ]
    ["a"; "b"] true
  = serialize_to_csv
      [ ({[ "b" := PStr "True"; "c" := PInt 1 ]} : gmap string pyval) ]
      ["a"; "b"] true.
Proof.
  apply serialize_to_csv_same_texts. constructor; [|constructor].
  intros f. rewrite !elem_of_cons, elem_of_nil.
  intros [->|[->|[]]]; reflexivity.
Defined.

Lemma serialize_to_csv_encoding_witness :
  ∃ lines,
    serialize_to_csv
      [ ({[ "name" := PStr ("Ann, B" +:+ nl +:+ "C"); "n" := PInt (-12) ]}
          : gmap string pyval);
        ({[ "name" := PStr (String "034" "Bob") ]} : gmap string pyval) ]
      ["name"; "n"] false
    = Ok (foldr String.append EmptyString
            (map (fun line => line +:+ String CR (String LF EmptyString))
               lines))
    ∧ Csv.reader lines
      = stream_of_list
          [ ["Ann, B" +:+ nl +:+ "C"; "-12"];
            [String "034" "Bob"; EmptyString] ].
Proof.
  destruct (serialize_to_csv_encoding
              [ ({[ "name" := PStr ("Ann, B" +:+ nl +:+ "C");
                   "n" := PInt (-12) ]} : gmap string pyval);
                ({[ "name" := PStr (String "034" "Bob") ]}
                  : gmap string pyval) ]
              ["name"; "n"]
              [ ["Ann, B" +:+ nl +:+ "C"; "-12"];
                [String "034" "Bob"; EmptyString] ])
    as (lines & Htext & Hread & _).
  - discriminate.
  - repeat constructor.
  - repeat constructor; vm_compute; discriminate.
  - exists lines. split; [exact Htext | exact Hread].
Defined.

Lemma serialize_to_csv_lines_witness :
  ∃ text,
    serialize_to_csv
      [ ({[ "name" := PStr "Ann, B"; "active" := PBool true ]}
          : gmap string pyval);
        ({[ "name" := PStr "Bob" ]} : gmap string pyval) ]
      ["name"; "active"] true
    = Ok text
    ∧ splitlines text
      = ([encode_record ["name"; "active"]]
         ++ map encode_record [ ["Ann, B"; "True"]; ["Bob"; EmptyString] ])%list.
Proof.
  apply (serialize_to_csv_lines
           [ ({[ "name" := PStr "Ann, B"; "active" := PBool true ]}
               : gmap string pyval);
             ({[ "name" := PStr "Bob" ]} : gmap string pyval) ]
           ["name"; "active"] true
           [ ["Ann, B"; "True"]; ["Bob"; EmptyString] ]).
  - intros _. repeat constructor.
  - repeat constructor.
  - repeat constructor.
Defined.

Lemma load_records_from_csv_exceptions_witness :
  (∃ detail, AttributeError = ValidationError detail)
  ∨ AttributeError = TypeError ∨ AttributeError = AttributeError
  ∨ ∃ msg, AttributeError = csv_Error msg.
Proof.
  apply (load_records_from_csv_exceptions ("a,b" +:+ nl +:+ "1")
           {[ "a"; "b" ]} {[ "b" ]}).
  vm_compute. reflexivity.
Defined.

Lemma load_records_from_csv_AttributeError_witness :
  ∃ raw rest r,
    Csv.reader (splitlines ("a,b" +:+ nl +:+ "1")) = SCons raw rest
    ∧ r ∈ stream_items rest ∧ r ≠ [] ∧ (length r < length raw)%nat.
Proof.
  apply (load_records_from_csv_AttributeError _ {[ "a"; "b" ]} {[ "b" ]}).
  vm_compute. reflexivity.
Defined.

Lemma load_records_from_csv_ValidationError_witness :
  ∃ raw rest,
    Csv.reader (splitlines ("name,age" +:+ nl +:+ "A,1" +:+ nl +:+ "B,"))
    = SCons raw rest
    ∧ (((({[ "name"; "age" ]} : gset string) ∖ ∅)
        ∖ list_to_set (map (fun h => lower (strip h)) raw) ≠ ∅
        ∧ "CSV is missing data at row #2. Required fields are [age, name]."
          = missing_headers_message
              ((({[ "name"; "age" ]} : gset string) ∖ ∅)
               ∖ list_to_set (map (fun h => lower (strip h)) raw)))
       ∨ ∃ n, (1 ≤ n ≤ length (List.filter nonblank (stream_items rest)))%nat
              ∧ "CSV is missing data at row #2. Required fields are [age, name]."
                = missing_data_message n {[ "name"; "age" ]}).
Proof.
  apply (load_records_from_csv_ValidationError
           ("name,age" +:+ nl +:+ "A,1" +:+ nl +:+ "B,") {[ "name"; "age" ]} ∅).
  vm_compute. reflexivity.
Defined.


Lemma load_records_from_csv_header_case_witness :
  load_records_from_csv ("Name" +:+ nl +:+ "A") {[ "name" ]} ∅
  = load_records_from_csv (" name " +:+ nl +:+ "A") {[ "name" ]} ∅.
Proof.
  apply (load_records_from_csv_header_case _ _ ["Name"] [" name "]
           (SCons ["A"] SNil)); reflexivity.
Defined.

Lemma load_records_from_csv_final_newline_witness :
  load_records_from_csv (("name" +:+ nl +:+ "A") +:+ nl) {[ "name" ]} ∅
  = load_records_from_csv ("name" +:+ nl +:+ "A") {[ "name" ]} ∅.
Proof. apply load_records_from_csv_final_newline. discriminate. Defined.

Lemma load_rows_surplus_cells_witness :
  load_rows {[ "a" ]} {[ "a" ]} 3
    (SCons (Csv.DictReader_row ["a"; "b"] ["1"; "2"; "3"]) SNil) []
  = Raise (ValidationError (missing_data_message 3 {[ "a" ]})).
Proof. apply load_rows_surplus_cells. simpl. lia. Defined.

Lemma load_rows_required_cell_missing_witness :
  load_rows {[ "a"; "b" ]} {[ "a"; "b" ]} 2
    (SCons (Csv.DictReader_row ["a"; "b"] ["1"]) SNil) []
  = Raise (ValidationError (missing_data_message 2 {[ "a"; "b" ]})).
Proof.
  apply (load_rows_required_cell_missing _ _ _ _ _ _ _ "b").
  - intros g. rewrite elem_of_union, !elem_of_singleton, !elem_of_cons.
    tauto.
  - apply elem_of_union. right. by apply elem_of_singleton.
  - right. vm_compute. reflexivity.
Defined.
